(** * A shallow embedding of bandcamp.py (bandcamp-downloader)

    The script logs into the storefront with a browser, rebuilds a cookie
    jar, walks the purchase collection, and for every item resolves its
    download link, downloads, extracts and locks it.  Each Python function
    is rendered as a Rocq function over explicit state; Python exceptions
    are the [exn] values carried by a small state/error monad. *)

From Stdlib Require Import String Ascii ZArith List Lia.
From stdpp Require Import base gmap sets list strings.

Set Warnings "-register-all".
Open Scope Z_scope.

(** ** Python exceptions and the state/error monad *)

Inductive exn :=
| KeyError (key : string)
| TypeError
| AttributeError
| ValueError
| FileNotFoundError
| IsADirectoryError
| NotADirectoryError
| FileExistsError
| ConnectionError        (** transport failure of an HTTP request *)
| MissingSchema          (** [requests.get] on something that is no URL *)
| CookieConflictError    (** [RequestsCookieJar.get] sees two cookies *)
| RecursionError         (** the interpreter's recursion limit was hit *)
| TimeoutException       (** [WebDriverWait.until] gave up *)
| WebDriverException.    (** any other failure of the browser driver *)

(** [M S A]: a computation on a state [S] that either raises or returns;
    effects performed before an exception stay in the state, as in Python. *)
Definition M (S A : Type) : Type := S -> (exn + A) * S.

Definition ret {S A} (a : A) : M S A := fun s => (inr a, s).
Definition raise {S A} (e : exn) : M S A := fun s => (inl e, s).
Definition bind {S A B} (m : M S A) (k : A -> M S B) : M S B :=
  fun s => match m s with
           | (inl e, s') => (inl e, s')
           | (inr a, s') => k a s'
           end.
Definition get {S} : M S S := fun s => (inr s, s).
Definition put {S} (s : S) : M S unit := fun _ => (inr tt, s).

Notation "'let!' x := m 'in' k" := (bind m (fun x => k))
  (at level 200, x name, m at level 100, k at level 200).
Notation "'do!' m 'in' k" := (bind m (fun _ => k))
  (at level 200, m at level 100, k at level 200).

(** Lifting a pure result. *)
Definition lift {S A} (r : exn + A) : M S A :=
  match r with inl e => raise e | inr a => ret a end.

(** ** JSON values, as [json.loads] returns them *)

Inductive json :=
| JNull
| JBool (b : bool)
| JNum (z : Z)
| JStr (s : string)
| JArr (xs : list json)
| JObj (kvs : list (string * json)).

(** Python truthiness of a decoded JSON value. *)
Definition truthy (j : json) : bool :=
  match j with
  | JNull => false
  | JBool b => b
  | JNum z => negb (Z.eqb z 0)
  | JStr s => negb (String.eqb s "")
  | JArr xs => negb (Nat.eqb (length xs) 0)
  | JObj kvs => negb (Nat.eqb (length kvs) 0)
  end.

(** Key lookup in a decoded object: [json.loads] keeps the last binding
    of a duplicated key. *)
Fixpoint obj_lookup (k : string) (kvs : list (string * json)) : option json :=
  match kvs with
  | [] => None
  | (k', v) :: rest =>
      match obj_lookup k rest with
      | Some w => Some w
      | None => if String.eqb k k' then Some v else None
      end
  end.

(** [d.get(k, default)]: only dicts have [.get]. *)
Definition py_get (d : json) (k : string) (default : json) : exn + json :=
  match d with
  | JObj kvs => inr (match obj_lookup k kvs with Some v => v | None => default end)
  | _ => inl AttributeError
  end.

(** [d[k]] with a string key. *)
Definition py_getitem (d : json) (k : string) : exn + json :=
  match d with
  | JObj kvs => match obj_lookup k kvs with Some v => inr v | None => inl (KeyError k) end
  | _ => inl TypeError
  end.

(** [for x in v]: lists give their elements, dicts their keys, strings
    their characters; other values are not iterable. *)
Definition py_iter (v : json) : exn + list json :=
  match v with
  | JArr xs => inr xs
  | JObj kvs => inr (map (fun kv => JStr kv.1) kvs)
  | JStr s => inr (map (fun c => JStr (String c EmptyString)) (list_ascii_of_string s))
  | _ => inl TypeError
  end.

(** Decimal digits, for [int(s)] and [str(n)]. *)
Definition digit_value (c : ascii) : option Z :=
  let n := Z.of_nat (nat_of_ascii c) - 48 in
  if (0 <=? n) && (n <=? 9) then Some n else None.

Fixpoint parse_digits (acc : Z) (s : string) : option Z :=
  match s with
  | EmptyString => Some acc
  | String c r => match digit_value c with
                  | Some d => parse_digits (acc * 10 + d) r
                  | None => None
                  end
  end.

(** [int(v)] on a decoded JSON value (strings: an optional sign and
    decimal digits). *)
Definition py_int (v : json) : exn + Z :=
  match v with
  | JNum z => inr z
  | JBool b => inr (if b then 1 else 0)
  | JStr (String "-" (String c r)) =>
      match parse_digits 0 (String c r) with Some z => inr (- z) | None => inl ValueError end
  | JStr (String c r) =>
      match parse_digits 0 (String c r) with Some z => inr z | None => inl ValueError end
  | JStr EmptyString => inl ValueError
  | _ => inl TypeError
  end.

(** [str(n)] for a Python int. *)
Definition digit_char (d : Z) : ascii := ascii_of_nat (Z.to_nat (48 + d)).

Fixpoint str_of_pos_aux (fuel : nat) (n : Z) (acc : string) : string :=
  match fuel with
  | O => acc
  | S f => let acc' := String (digit_char (n mod 10)) acc in
           if n <? 10 then acc' else str_of_pos_aux f (n / 10) acc'
  end.

Definition str_of_Z (z : Z) : string :=
  match z with
  | Z0 => "0"
  | Zpos p => str_of_pos_aux (Pos.size_nat p) (Zpos p) ""
  | Zneg p => String "-" (str_of_pos_aux (Pos.size_nat p) (Zpos p) "")
  end.

(** ** POSIX paths

    [posixpath.join] is rendered as written; the file system below
    identifies a path with its list of non-empty components, so that
    ["a//b"] and ["a/b/"] name the same file as ["a/b"].  An absolute
    path gets a leading [""] component.  ["."] and [".."] are kept as
    ordinary names, which the system would resolve instead: properties of
    file-system effects are stated for [plain] paths. *)

Definition is_slash (c : ascii) : bool := Ascii.eqb c "/".

Fixpoint split_slash (s : string) : list string :=
  match s with
  | EmptyString => [""%string]
  | String c r =>
      if is_slash c then ""%string :: split_slash r
      else match split_slash r with
           | [] => [String c EmptyString]
           | x :: xs => String c x :: xs
           end
  end.

Definition comps (s : string) : list string :=
  List.filter (fun x => negb (String.eqb x "")) (split_slash s).

Definition starts_slash (s : string) : bool :=
  match s with String c _ => is_slash c | EmptyString => false end.

Fixpoint ends_slash (s : string) : bool :=
  match s with
  | EmptyString => false
  | String c EmptyString => is_slash c
  | String _ r => ends_slash r
  end.

Definition path := list string.

Definition norm (s : string) : path :=
  if starts_slash s then ""%string :: comps s else comps s.

(** [os.path.join(a, b)] *)
Definition join (a b : string) : string :=
  if starts_slash b then b
  else if String.eqb a "" || ends_slash a then (a ++ b)%string
  else (a ++ String "/" b)%string.

(** ** BandcampBlobParser, ParseUserInfo

    An HTML page is given by the start tags [html.parser] reports for it,
    in document order: a lower-cased tag name and its attribute list
    ([None] for an attribute written without a value).  [json.loads] is
    the library decoder, a parameter of the section. *)

Definition attrs := list (string * option string).
Definition starttag : Type := string * attrs.

(** [dict(attrs).get(k)]: the last binding of [k] wins, and an attribute
    without a value reads as [None]. *)
Fixpoint attrs_lookup (k : string) (a : attrs) : option (option string) :=
  match a with
  | [] => None
  | (k', v) :: rest =>
      match attrs_lookup k rest with
      | Some w => Some w
      | None => if String.eqb k k' then Some v else None
      end
  end.

Definition attrs_get (k : string) (a : attrs) : option string :=
  match attrs_lookup k a with Some (Some s) => Some s | _ => None end.

Definition opt_str_eqb (o : option string) (s : string) : bool :=
  match o with Some s' => String.eqb s' s | None => false end.

(** The test of [handle_starttag]: a [div] whose [id] is [pagedata]. *)
Definition is_pagedata (t : starttag) : bool :=
  String.eqb t.1 "div" && opt_str_eqb (attrs_get "id" t.2) "pagedata".

Definition has_pagedata (tags : list starttag) : bool :=
  existsb is_pagedata tags.

Section BlobParser.
Context (json_loads : string -> exn + json).

(** [BandcampBlobParser.handle_starttag]; [blob] is [self.__datablob]. *)
Definition handle_starttag (blob : option json) (t : starttag) : exn + option json :=
  let elemclass := attrs_get "id" t.2 in
  if negb (String.eqb t.1 "div") || negb (opt_str_eqb elemclass "pagedata") then inr blob
  else match attrs_get "data-blob" t.2 with
       | None => inl TypeError          (* json.loads(None) *)
       | Some s => match json_loads s with inl e => inl e | inr j => inr (Some j) end
       end.

(** [feed]: one [handle_starttag] per start tag, in order. *)
Fixpoint feed (blob : option json) (tags : list starttag) : exn + option json :=
  match tags with
  | [] => inr blob
  | t :: rest => match handle_starttag blob t with
                 | inl e => inl e
                 | inr b => feed b rest
                 end
  end.

(** [BandcampBlobParser.data]: [self.__datablob or {}]. *)
Definition data (blob : option json) : json :=
  match blob with
  | Some j => if truthy j then j else JObj []
  | None => JObj []
  end.

(** A fresh parser fed one page, then asked for [data]. *)
Definition page_data (tags : list starttag) : exn + json :=
  match feed None tags with inl e => inl e | inr b => inr (data b) end.

End BlobParser.

Definition bind_r {A B} (r : exn + A) (k : A -> exn + B) : exn + B :=
  match r with inl e => inl e | inr a => k a end.

(** [ParseUserInfo.fan_id]:
    [int(self.data.get('fan_data', {}).get('fan_id', 0))] *)
Definition fan_id (d : json) : exn + Z :=
  bind_r (py_get d "fan_data" (JObj [])) (fun fd =>
  bind_r (py_get fd "fan_id" (JNum 0)) py_int).

(** [ParseUserInfo.last_token]:
    [self.data.get('collection_data', {}).get('last_token', '')] *)
Definition last_token (d : json) : exn + json :=
  bind_r (py_get d "collection_data" (JObj [])) (fun cd =>
  py_get cd "last_token" (JStr "")).

(** ** Items and the download-url join *)

Record item := mk_item {
  sale_item_type : string;
  sale_item_id : Z;
  item_id : Z;
  item_title : string;
  band_name : string;
  download_url : option string;
  token : string
}.

Definition set_download_url (u : option string) (a : item) : item :=
  mk_item a.(sale_item_type) a.(sale_item_id) a.(item_id) a.(item_title)
          a.(band_name) u a.(token).

(** [album['sale_item_type'] + str(album['sale_item_id'])] *)
Definition url_key (a : item) : string :=
  (a.(sale_item_type) ++ str_of_Z a.(sale_item_id))%string.

(** [map_download_urls(download_urls, albums)]: sets every item's
    [download_url] to [download_urls.get(url_key)]. *)
Definition map_download_urls (download_urls : gmap string string) (albums : list item)
  : list item :=
  map (fun a => set_download_url (download_urls !! url_key a) a) albums.

(** ** get_collection

    The collection endpoint answers each POST with the next response of a
    script [srv]; an exhausted script is a transport failure.  The
    requests sent are returned with the result.

    [get_collection] recurses once per non-empty page (line 153), each
    call on a new Python frame, and the interpreter raises
    [RecursionError] once the stack reaches [sys.getrecursionlimit()]
    (1000 by default, the module's own frame included).  [room] is the
    number of nested activations that fit under that limit from the
    caller's depth, the frames the body's own calls ([session.post],
    [response.json()]) need included; one activation more raises
    [RecursionError].  The model counts that activation's request as not
    sent; no property below depends on it. *)

Record page := mk_page {
  page_items : option (list item);                  (** [items] *)
  page_redownload_urls : option (gmap string string) (** [redownload_urls] *)
}.

Record post_request := mk_post {
  req_fan_id : Z;
  req_older_than_token : string;
  req_count : Z
}.

Fixpoint get_collection (room : nat) (fan_id : Z) (last_token : string)
    (albums : option (list item)) (srv : list page) : (exn + list item) * list post_request :=
  match room with
  | O => (inl RecursionError, [])
  | S room' =>
  let req := mk_post fan_id last_token 100 in
  match srv with
  | [] => (inl ConnectionError, [req])
  | resp :: srv' =>
      let albums := match albums with Some l => l | None => [] end in
      let items := match resp.(page_items) with Some l => l | None => [] end in
      match resp.(page_redownload_urls) with
      | None => (inl (KeyError "redownload_urls"), [req])
      | Some urls =>
          let items := map_download_urls urls items in
          match items with
          | [] => (inr albums, [req])
          | _ :: _ =>
              let tok := match last items with Some a => a.(token) | None => ""%string end in
              let '(r, reqs) := get_collection room' fan_id tok (Some (albums ++ items)) srv' in
              (r, req :: reqs)
          end
      end
  end
  end.

(** Helpers to state the pagination result. *)
Definition page_is_empty (p : page) : bool :=
  match p.(page_items) with Some (_ :: _) => false | _ => true end.

Definition page_has_urls (p : page) : bool :=
  match p.(page_redownload_urls) with Some _ => true | None => false end.

(** The items of a page after the join. *)
Definition joined_items (p : page) : list item :=
  match p.(page_redownload_urls) with
  | Some u => map_download_urls u (match p.(page_items) with Some l => l | None => [] end)
  | None => []
  end.

Definition last_token_of (p : page) : string :=
  match last (joined_items p) with Some a => a.(token) | None => ""%string end.

(** The cursors sent: the initial one, then the last token of each
    non-empty page. *)
Fixpoint cursors (tok : string) (ps : list page) : list string :=
  match ps with
  | [] => [tok]
  | p :: rest => tok :: cursors (last_token_of p) rest
  end.

(** ** The file system, the network and the console

    A file holds a payload: the bytes [zipfile] does not recognise as an
    archive ([Raw]), or an archive with its members ([Archive]).  A
    member whose name ends in a slash is a directory entry. *)

Inductive payload :=
| Raw (bytes : list Byte.byte)
| Archive (entries : list (string * payload)).

(** An HTTP response: the start tags of its text, and its body. *)
Record response := mk_response {
  resp_tags : list starttag;
  resp_body : payload
}.

Record world := mk_world {
  w_files : gmap path payload;
  w_dirs : gset path;
  w_server : string -> option response;  (** [None]: transport failure *)
  w_gets : list string;                    (** URLs requested, in order *)
  w_out : list string                      (** lines printed *)
}.

Definition set_files (f : gmap path payload) (w : world) : world :=
  mk_world f w.(w_dirs) w.(w_server) w.(w_gets) w.(w_out).
Definition set_dirs (d : gset path) (w : world) : world :=
  mk_world w.(w_files) d w.(w_server) w.(w_gets) w.(w_out).
Definition add_get (u : string) (w : world) : world :=
  mk_world w.(w_files) w.(w_dirs) w.(w_server) (w.(w_gets) ++ [u]) w.(w_out).
Definition add_out (l : string) (w : world) : world :=
  mk_world w.(w_files) w.(w_dirs) w.(w_server) w.(w_gets) (w.(w_out) ++ [l]).

(** The working directory [[]] and the root [[""]] always exist. *)
Definition is_dir (w : world) (p : path) : bool :=
  bool_decide (p = []) || bool_decide (p = [""%string]) || bool_decide (p ∈ w.(w_dirs)).

Definition is_file (w : world) (p : path) : bool :=
  match w.(w_files) !! p with Some _ => true | None => false end.

Definition parent (p : path) : path := removelast p.

Definition proper_prefixes (p : path) : list path :=
  map (fun n => take n p) (seq 1 (length p - 1)).

Definition prefixes (p : path) : list path :=
  map (fun n => take n p) (seq 1 (length p)).

(** The error of an open or rename whose parent directory is missing. *)
Definition path_error (w : world) (p : path) : exn :=
  if existsb (is_file w) (proper_prefixes p) then NotADirectoryError else FileNotFoundError.

Definition print (l : string) : M world unit := fun w => (inr tt, add_out l w).

(** [os.path.exists] *)
Definition os_path_exists (p : path) : M world bool :=
  fun w => (inr (is_dir w p || is_file w p), w).

(** [os.path.isdir] *)
Definition os_path_isdir (p : path) : M world bool := fun w => (inr (is_dir w p), w).

(** [os.makedirs(p)]: every missing ancestor, then [p]. *)
Definition os_makedirs (p : path) : M world unit :=
  fun w =>
    if is_dir w p || is_file w p then (inl FileExistsError, w)
    else if existsb (is_file w) (proper_prefixes p) then (inl NotADirectoryError, w)
    else (inr tt, set_dirs (w.(w_dirs) ∪ list_to_set (prefixes p)) w).

(** [os.mkdir(p)] *)
Definition os_mkdir (p : path) : M world unit :=
  fun w =>
    if is_dir w p || is_file w p then (inl FileExistsError, w)
    else if is_dir w (parent p) then (inr tt, set_dirs ({[p]} ∪ w.(w_dirs)) w)
    else (inl (path_error w p), w).

(** [open(p, 'wb')] then writing [c] through the handle. *)
Definition write_file (p : path) (c : payload) : M world unit :=
  fun w =>
    if is_dir w p then (inl IsADirectoryError, w)
    else if is_dir w (parent p) then (inr tt, set_files (<[p := c]> w.(w_files)) w)
    else (inl (path_error w p), w).

(** Reading a file back ([zipfile.ZipFile(p, 'r')] opens it). *)
Definition read_file (p : path) : M world payload :=
  fun w =>
    match w.(w_files) !! p with
    | Some c => (inr c, w)
    | None => (inl (if is_dir w p then IsADirectoryError else FileNotFoundError), w)
    end.

(** [os.rename(src, dst)] of a file, POSIX semantics: an existing file
    at [dst] is replaced. *)
Definition os_rename (src dst : path) : M world unit :=
  fun w =>
    match w.(w_files) !! src with
    | None => (inl FileNotFoundError, w)
    | Some c =>
        if bool_decide (src = dst) then (inr tt, w)
        else if is_dir w dst then (inl IsADirectoryError, w)
        else if is_dir w (parent dst) then
          (inr tt, set_files (<[dst := c]> (delete src w.(w_files))) w)
        else (inl (path_error w dst), w)
    end.

(** [requests.get(url)]: a value that is no string has no URL schema. *)
Definition http_get (url : option string) : M world response :=
  fun w =>
    match url with
    | None => (inl MissingSchema, w)
    | Some u =>
        match w.(w_server) u with
        | None => (inl ConnectionError, add_get u w)
        | Some r => (inr r, add_get u w)
        end
    end.

(** ** zipfile's extractall

    A member name is split at slashes and loses its empty, ["."] and
    [".."] parts before it is joined to the target directory. *)

Definition sanitize (name : string) : list string :=
  List.filter (fun x => negb (String.eqb x "" || String.eqb x "." || String.eqb x ".."))
    (split_slash name).

(** [ZipFile._extract_member] *)
Definition extract_member (dir : path) (m : string * payload) : M world unit :=
  let targetpath := dir ++ sanitize m.1 in
  let upperdirs := parent targetpath in
  let! up_exists := os_path_exists upperdirs in
  do! (if negb (bool_decide (upperdirs = [])) && negb up_exists
       then os_makedirs upperdirs else ret tt) in
  if ends_slash m.1 then
    (let! isdir := os_path_isdir targetpath in
     if isdir then ret tt else os_mkdir targetpath)
  else write_file targetpath m.2.

(** [ZipFile.extractall(dir)]: the members in archive order. *)
Fixpoint extractall (dir : path) (ms : list (string * payload)) : M world unit :=
  match ms with
  | [] => ret tt
  | m :: rest => do! extract_member dir m in extractall dir rest
  end.

(** ** DownloadAlbum *)

(** [self.base_dir = base_dir or "Music"] *)
Definition default_base_dir (b : string) : string :=
  if String.eqb b "" then "Music"%string else b.

Section DownloadAlbum.
Context (json_loads : string -> exn + json).
Context (album : item) (base_dir : string).

Definition download_dir_name : string :=
  join (join (default_base_dir base_dir) album.(band_name)) album.(item_title).

(** [download_dir]: creates the directory when it does not exist. *)
Definition download_dir : M world string :=
  let d := download_dir_name in
  let! ex := os_path_exists (norm d) in
  if ex then ret d else do! os_makedirs (norm d) in ret d.

Definition zip_name : string := (str_of_Z album.(item_id) ++ ".zip")%string.
Definition lock_name : string := ("." ++ str_of_Z album.(item_id) ++ ".lock")%string.
Definition mp3_name : string := (album.(item_title) ++ ".mp3")%string.

Definition download_path : M world string :=
  let! d := download_dir in ret (join d zip_name).

Definition lock_path : M world string :=
  let! d := download_dir in ret (join d lock_name).

Definition locked : M world bool :=
  let! p := lock_path in os_path_exists (norm p).

Definition lock : M world unit :=
  let! p := lock_path in write_file (norm p) (Raw []).

(** The body of the loop [for download in self.data['digital_items']]. *)
Fixpoint resolve_loop (cur : option json) (ds : list json) : exn + option json :=
  match ds with
  | [] => inr cur
  | dl :: rest =>
      match bind_r (py_getitem dl "downloads") (fun x =>
            bind_r (py_getitem x "mp3-v0") (fun y => py_getitem y "url")) with
      | inl e => inl e
      | inr u => resolve_loop (Some u) rest
      end
  end.

(** [parse_album]: returns [self.download_url], initially [None]. *)
Definition parse_album : M world (option json) :=
  let! r := http_get album.(download_url) in
  let! d := lift (page_data json_loads r.(resp_tags)) in
  let! ds := lift (bind_r (py_getitem d "digital_items") py_iter) in
  lift (resolve_loop None ds).

Definition url_of_json (u : option json) : option string :=
  match u with Some (JStr s) => Some s | _ => None end.

(** [download]: opening the file truncates it; the streamed chunks are
    then written through the handle, in order. *)
Definition download (url : option json) : M world unit :=
  let! p := download_path in
  do! write_file (norm p) (Raw []) in
  let! r := http_get (url_of_json url) in
  fun w => (inr tt, set_files (<[norm p := r.(resp_body)]> w.(w_files)) w).

(** [extract]: [BadZipFile] selects the rename. *)
Definition extract : M world unit :=
  let! p := download_path in
  let! z := read_file (norm p) in
  match z with
  | Archive ms => let! d := download_dir in extractall (norm d) ms
  | Raw _ =>
      let! src := download_path in
      let! d := download_dir in
      os_rename (norm src) (norm (join d mp3_name))
  end.

Definition album_name : string :=
  (album.(band_name) ++ " - " ++ album.(item_title))%string.

Definition fetch_album (url : option json) : M world unit :=
  let! l := locked in
  if l then print ("Skipping already fetched album, " ++ album_name)%string
  else
    do! print ("Fetching album, " ++ album_name)%string in
    do! download url in
    do! extract in
    lock.

(** The body of the main loop: [DownloadAlbum(...)], [parse_album()],
    [fetch_album()]. *)
Definition process_album : M world unit :=
  let! u := parse_album in fetch_album u.

End DownloadAlbum.

(** ** parse_cookie_list and RequestsCookieJar *)

Record cookie := mk_cookie {
  c_name : string;
  c_value : string;
  c_domain : string;
  c_path : string;
  c_expiry : option Z     (** [None]: JSON [null] *)
}.

(** A jar maps (name, domain, path) to (value, expires), as
    [http.cookiejar] nests [_cookies[domain][path][name]]. *)
Abbreviation jar := (gmap (string * string * string) (string * option Z)).

Definition cookie_key (c : cookie) : string * string * string :=
  (c.(c_name), c.(c_domain), c.(c_path)).

(** [value.replace(BQ, '')], BQ being a backslash then a double quote
    (character 34). *)
Fixpoint remove_escaped_quotes (s : string) : string :=
  match s with
  | EmptyString => EmptyString
  | String "\" (String "034" r) => remove_escaped_quotes r
  | String c r => String c (remove_escaped_quotes r)
  end.

Definition starts_quote (s : string) : bool :=
  match s with String c _ => Ascii.eqb c "034" | EmptyString => false end.

Fixpoint ends_quote (s : string) : bool :=
  match s with
  | EmptyString => false
  | String c EmptyString => Ascii.eqb c "034"
  | String _ r => ends_quote r
  end.

(** [RequestsCookieJar.set_cookie] unescapes a double-quoted value. *)
Definition stored_value (v : string) : string :=
  if starts_quote v && ends_quote v then remove_escaped_quotes v else v.

(** [cookie_jar.set(name, value, domain=, path=, expires=)] *)
Definition jar_set (c : cookie) (j : jar) : jar :=
  <[cookie_key c := (stored_value c.(c_value), c.(c_expiry))]> j.

(** [if cookie['expiry'] and cookie['expiry'] < now: continue] *)
Definition skipped (now : Z) (c : cookie) : bool :=
  match c.(c_expiry) with
  | None => false
  | Some e => negb (Z.eqb e 0) && (e <? now)
  end.

Fixpoint parse_cookie_list_from (now : Z) (cs : list cookie) (j : jar) : jar :=
  match cs with
  | [] => j
  | c :: rest =>
      if skipped now c then parse_cookie_list_from now rest j
      else parse_cookie_list_from now rest (jar_set c j)
  end.

(** [parse_cookie_list(cookies)], [now = time.time()]. *)
Definition parse_cookie_list (now : Z) (cs : list cookie) : jar :=
  parse_cookie_list_from now cs ∅.

(** [RequestsCookieJar.get(name)] of requests up to 2.31:
    [_find_no_duplicates] raises on a second cookie of that name and
    returns a value only when it is truthy, so an empty value reads as the
    default [None].  The repository pins no version of requests. *)
Definition jar_get (name : string) (j : jar) : exn + option string :=
  match List.filter (fun kv => String.eqb kv.1.1.1 name) (map_to_list j) with
  | [] => inr None
  | [(_, (v, _))] => inr (if String.eqb v "" then None else Some v)
  | _ => inl CookieConflictError
  end.

(** The same lookup from requests 2.32 on: [_find_no_duplicates] returns
    any value it found, the empty string included. *)
Definition jar_get_current (name : string) (j : jar) : exn + option string :=
  match List.filter (fun kv => String.eqb kv.1.1.1 name) (map_to_list j) with
  | [] => inr None
  | [(_, (v, _))] => inr (Some v)
  | _ => inl CookieConflictError
  end.

(** Python's truth value of a string or [None]. *)
Definition py_truthy_str (o : option string) : bool :=
  match o with Some v => negb (String.eqb v "") | None => false end.

(** ** bandcamp_login

    The browser is an external collaborator: [b_fails op] tells whether
    driver operation [op] raises, [b_cookies] what [get_cookies] returns.
    [.cookies] is held decoded ([json.dump] then [json.load] round-trip). *)

Inductive browser_op :=
| Launch                              (** [webdriver.Firefox()] *)
| Navigate (url : string)             (** [driver.get] *)
| WaitFor (id : string)               (** [wait_for_id], 30 s *)
| FindElement (id : string)
| SendKeys (id : string) (text : string)
| Submit (id : string)
| GetCookies
| Quit.

Inductive auth_event :=
| BrowserCall (op : browser_op)       (** an attempted driver call *)
| CacheWrite (cs : list cookie).      (** [json.dump(cookies, cookiestore)] *)

Record auth_world := mk_auth_world {
  a_cache : option (list cookie);       (** [.cookies]; [None]: no file *)
  a_clock : Z;                          (** [time.time()] *)
  a_fails : browser_op -> bool;
  a_browser_cookies : list cookie;
  a_browser_open : bool;
  a_events : list auth_event
}.

Definition log_event (e : auth_event) (w : auth_world) : auth_world :=
  mk_auth_world w.(a_cache) w.(a_clock) w.(a_fails) w.(a_browser_cookies)
    w.(a_browser_open) (w.(a_events) ++ [e]).

Definition set_open (b : bool) (w : auth_world) : auth_world :=
  mk_auth_world w.(a_cache) w.(a_clock) w.(a_fails) w.(a_browser_cookies) b w.(a_events).

Definition set_cache (cs : list cookie) (w : auth_world) : auth_world :=
  mk_auth_world (Some cs) w.(a_clock) w.(a_fails) w.(a_browser_cookies)
    w.(a_browser_open) w.(a_events).

Definition op_error (op : browser_op) : exn :=
  match op with WaitFor _ => TimeoutException | _ => WebDriverException end.

(** One driver call: logged, then it raises or succeeds. *)
Definition driver (op : browser_op) : M auth_world unit :=
  fun w =>
    let w' := log_event (BrowserCall op) w in
    if w.(a_fails) op then (inl (op_error op), w') else (inr tt, w').

Definition launch : M auth_world unit :=
  do! driver Launch in fun w => (inr tt, set_open true w).

(** [driver.quit()] *)
Definition quit : M auth_world unit :=
  fun w => (inr tt, set_open false (log_event (BrowserCall Quit) w)).

Definition get_cookies : M auth_world (list cookie) :=
  do! driver GetCookies in fun w => (inr w.(a_browser_cookies), w).

(** [try: body finally: fin] *)
Definition try_finally {S A} (body : M S A) (fin : M S unit) : M S A :=
  fun s => match body s with
           | (r, s1) => match fin s1 with
                        | (inl e, s2) => (inl e, s2)
                        | (inr _, s2) => (r, s2)
                        end
           end.

Definition time_time : M auth_world Z := fun w => (inr w.(a_clock), w).

Definition cache_exists : M auth_world bool :=
  fun w => (inr (match w.(a_cache) with Some _ => true | None => false end), w).

Definition read_cache : M auth_world (list cookie) :=
  fun w => match w.(a_cache) with
           | Some cs => (inr cs, w)
           | None => (inl FileNotFoundError, w)
           end.

Definition write_cache (cs : list cookie) : M auth_world unit :=
  fun w => (inr tt, set_cache cs (log_event (CacheWrite cs) w)).

Definition truthy_opt (o : option string) : bool :=
  match o with Some _ => true | None => false end.

(** The [try] block of [bandcamp_login]. *)
Definition login_steps (username password : string) : M auth_world (list cookie) :=
  do! driver (Navigate "https://bandcamp.com/login") in
  do! driver (WaitFor "username-field") in
  do! driver (FindElement "username-field") in
  do! driver (SendKeys "username-field" username) in
  do! driver (FindElement "password-field") in
  do! driver (SendKeys "password-field" password) in
  do! driver (FindElement "loginform") in
  do! driver (Submit "loginform") in
  do! driver (WaitFor "user-nav") in
  get_cookies.

(** The browser path of [bandcamp_login]. *)
Definition browser_login (username password : string) : M auth_world jar :=
  do! launch in
  let! cookies := try_finally (login_steps username password) quit in
  let! now := time_time in
  let cookie_jar := parse_cookie_list now cookies in
  do! write_cache cookies in
  ret cookie_jar.

Definition bandcamp_login (username password : string) : M auth_world jar :=
  let! ex := cache_exists in
  if ex then
    let! cs := read_cache in
    let! now := time_time in
    let cookie_jar := parse_cookie_list now cs in
    let! cid := lift (jar_get "client_id" cookie_jar) in
    if truthy_opt cid then
      let! ident := lift (jar_get "identity" cookie_jar) in
      if truthy_opt ident then ret cookie_jar
      else browser_login username password
    else browser_login username password
  else browser_login username password.

(** ** The main program *)

(** [download['downloads']['mp3-v0']['url']], the body of the loop of
    [parse_album] on one entry (as inlined in [resolve_loop]). *)
Definition entry_url (dl : json) : exn + json :=
  bind_r (py_getitem dl "downloads") (fun x =>
  bind_r (py_getitem x "mp3-v0") (fun y => py_getitem y "url")).

(** [for album in albums: downloader = DownloadAlbum(album, session,
    base_dir=music_directory); downloader.parse_album();
    downloader.fetch_album()] *)
Fixpoint run_albums (json_loads : string -> exn + json) (music_directory : string)
    (albums : list item) : M world unit :=
  match albums with
  | [] => ret tt
  | album :: rest =>
      do! process_album json_loads album music_directory in
      run_albums json_loads music_directory rest
  end.

(** ** Properties of a file tree *)

(** Every file and every directory sits in an existing directory. *)
Definition wf (w : world) : Prop :=
  (forall p c, w.(w_files) !! p = Some c -> is_dir w (parent p) = true) /\
  (forall d, d ∈ w.(w_dirs) -> is_dir w (parent d) = true).

(** The item's lock marker, as a normalised path. *)
Definition marker_path (album : item) (base_dir : string) : path :=
  norm (join (download_dir_name album base_dir) (lock_name album)).

Definition marker_exists (album : item) (base_dir : string) (w : world) : bool :=
  is_dir w (marker_path album base_dir) || is_file w (marker_path album base_dir).

(** The downloaded file, as a normalised path. *)
Definition zip_path (album : item) (base : string) : path :=
  norm (download_dir_name album base) ++ [zip_name album].

(** A path that is neither a directory nor a file. *)
Definition absent (q : path) (w : world) : Prop :=
  is_dir w q = false /\ is_file w q = false.



(** A name with no slash is one component (or none, when empty). *)
Definition no_slash (s : string) : bool :=
  forallb (fun c => negb (is_slash c)) (list_ascii_of_string s).

(** A path with no ["."] or [".."] component.  The operating system
    resolves those through the directory tree, which [norm] does not; on
    a plain path the lexical path is the one the system opens. *)
Definition plain (p : path) : bool :=
  forallb (fun x => negb (String.eqb x "." || String.eqb x "..")) p.

(** [c] keeps [q] absent and the server as it is. *)
Definition frame (q : path) {A} (c : M world A) : Prop :=
  forall w, absent q w -> absent q (snd (c w)) /\ (snd (c w)).(w_server) = w.(w_server).

(** An expiry that [parse_cookie_list] keeps: none, 0 or not before [now]. *)
Definition not_expired (now : Z) (x : option Z) : Prop :=
  match x with None => True | Some e => e = 0 \/ now <= e end.

(** [c] only logs driver calls other than [Quit]. *)
Definition no_quit {A} (c : M auth_world A) : Prop :=
  forall w, exists ops, Forall (fun o => o <> Quit) ops /\
    snd (c w) = mk_auth_world w.(a_cache) w.(a_clock) w.(a_fails) w.(a_browser_cookies)
                  w.(a_browser_open) (w.(a_events) ++ map BrowserCall ops).

(** [c] changes the file at no path outside [P]. *)
Definition files_kept (P : path -> Prop) {A} (c : M world A) : Prop :=
  forall w q, ~ P q -> (snd (c w)).(w_files) !! q = w.(w_files) !! q.


(** * Proofs *)

(** ** Path lemmas *)

Lemma split_slash_nonempty (s : string) : split_slash s <> [].
Proof.
  induction s as [|c r IH]; simpl; [discriminate|].
  destruct (is_slash c); [discriminate|].
  destruct (split_slash r); discriminate.
Qed.

Lemma split_slash_app (a b : string) :
  split_slash (a ++ String "/" b)%string = split_slash a ++ split_slash b.
Proof.
  induction a as [|c r IH]; simpl; [reflexivity|].
  rewrite IH. destruct (is_slash c); [reflexivity|].
  pose proof (split_slash_nonempty r) as Hne.
  destruct (split_slash r); [congruence|reflexivity].
Qed.

Lemma comps_app (a b : string) :
  comps (a ++ String "/" b)%string = comps a ++ comps b.
Proof. unfold comps. rewrite split_slash_app. apply List.filter_app. Qed.

Lemma comps_empty : comps "" = [].
Proof. reflexivity. Qed.

Lemma ends_slash_inv (a : string) :
  ends_slash a = true -> exists a', a = (a' ++ "/")%string.
Proof.
  induction a as [|c r IH]; simpl; [discriminate|].
  destruct r as [|c' r'].
  - intros H. exists ""%string. unfold is_slash in H.
    apply Ascii.eqb_eq in H. subst. reflexivity.
  - intros H. destruct (IH H) as [a' ->]. exists (String c a'). reflexivity.
Qed.

Lemma starts_slash_app (a b : string) :
  a <> ""%string -> starts_slash (a ++ b) = starts_slash a.
Proof. destruct a; [congruence|reflexivity]. Qed.

Lemma string_app_assoc (a b c : string) :
  ((a ++ b) ++ c)%string = (a ++ (b ++ c))%string.
Proof.
  induction a as [|x r IH]; [reflexivity|].
  change (String x ((r ++ b) ++ c) = String x (r ++ (b ++ c)))%string.
  rewrite IH. reflexivity.
Qed.

(** Joining a relative name appends its components. *)
Lemma norm_join (a b : string) :
  starts_slash b = false -> norm (join a b) = norm a ++ comps b.
Proof.
  intros Hb. unfold join. rewrite Hb.
  destruct (String.eqb a "") eqn:Ea.
  - apply String.eqb_eq in Ea. subst. simpl. change (""++b)%string with b.
    unfold norm. rewrite Hb. reflexivity.
  - assert (Ha : a <> ""%string) by (intros ->; discriminate).
    simpl. destruct (ends_slash a) eqn:Ee.
    + destruct (ends_slash_inv a Ee) as [a' ->].
      unfold norm. rewrite (starts_slash_app _ _ Ha).
      rewrite string_app_assoc. change ("/" ++ b)%string with (String "/" b).
      rewrite !comps_app, comps_empty, app_nil_r.
      destruct (starts_slash (a' ++ "/")); reflexivity.
    + unfold norm. rewrite (starts_slash_app _ _ Ha), comps_app.
      destruct (starts_slash a); reflexivity.
Qed.

Lemma split_slash_no_slash (s : string) :
  no_slash s = true -> split_slash s = [s].
Proof.
  induction s as [|c r IH]; simpl; [reflexivity|].
  unfold no_slash in *; simpl. intros H. apply andb_prop in H as [Hc Hr].
  destruct (is_slash c); [discriminate|]. rewrite (IH Hr). reflexivity.
Qed.

Lemma comps_no_slash (s : string) :
  no_slash s = true -> s <> ""%string -> comps s = [s].
Proof.
  intros H Hne. unfold comps. rewrite (split_slash_no_slash s H). simpl.
  destruct (String.eqb s "") eqn:E; [apply String.eqb_eq in E; congruence|reflexivity].
Qed.

Lemma starts_slash_no_slash (s : string) :
  no_slash s = true -> starts_slash s = false.
Proof.
  destruct s as [|c r]; [reflexivity|]. unfold no_slash. simpl.
  destruct (is_slash c); [discriminate|reflexivity].
Qed.

Lemma no_slash_app (a b : string) :
  no_slash (a ++ b) = no_slash a && no_slash b.
Proof.
  induction a as [|c r IH]; [reflexivity|].
  unfold no_slash in *. simpl. rewrite IH. apply andb_assoc.
Qed.

(** [str(n)] writes digits and a sign, never a slash. *)
Lemma digit_char_no_slash (d : Z) :
  0 <= d < 10 -> is_slash (digit_char d) = false.
Proof.
  intros Hd. unfold is_slash, digit_char.
  assert (d = 0 \/ d = 1 \/ d = 2 \/ d = 3 \/ d = 4 \/ d = 5 \/ d = 6 \/
          d = 7 \/ d = 8 \/ d = 9) as Hc by lia.
  repeat destruct Hc as [-> | Hc]; try reflexivity; subst; reflexivity.
Qed.

Lemma str_of_pos_aux_no_slash (fuel : nat) (n : Z) (acc : string) :
  0 <= n -> no_slash acc = true -> no_slash (str_of_pos_aux fuel n acc) = true.
Proof.
  revert n acc. induction fuel as [|f IH]; intros n acc Hn Hacc; simpl; [exact Hacc|].
  assert (Hd : no_slash (String (digit_char (n mod 10)) acc) = true).
  { unfold no_slash in *. simpl. rewrite digit_char_no_slash by (apply Z.mod_pos_bound; lia).
    exact Hacc. }
  destruct (n <? 10); [exact Hd|].
  apply IH; [apply Z.div_pos; lia | exact Hd].
Qed.

Lemma str_of_Z_no_slash (z : Z) : no_slash (str_of_Z z) = true.
Proof.
  destruct z as [|p|p]; simpl; [reflexivity| |];
    [| unfold no_slash; simpl; fold (no_slash (str_of_pos_aux (Pos.size_nat p) (Z.pos p) ""))];
    apply str_of_pos_aux_no_slash; try lia; reflexivity.
Qed.


(** ** Blob parser *)

Lemma handle_starttag_other (json_loads : string -> exn + json) blob t :
  is_pagedata t = false -> handle_starttag json_loads blob t = inr blob.
Proof.
  unfold is_pagedata, handle_starttag. intros H.
  apply andb_false_iff in H as [H|H]; rewrite H; [reflexivity|].
  rewrite orb_true_r. reflexivity.
Qed.

Lemma feed_no_pagedata (json_loads : string -> exn + json) blob tags :
  has_pagedata tags = false -> feed json_loads blob tags = inr blob.
Proof.
  revert blob. induction tags as [|t rest IH]; intros blob H; [reflexivity|].
  simpl in H. apply orb_false_iff in H as [Ht Hr].
  simpl. rewrite (handle_starttag_other json_loads blob t Ht). apply IH, Hr.
Qed.

(** C6: on a page with no [div] whose [id] is [pagedata], the parser's
    payload is the empty mapping, no error is raised, and the [fan_id]
    accessor on it yields 0 and the [last_token] accessor the empty
    string. *)
Theorem C6_no_pagedata_defaults (json_loads : string -> exn + json)
    (tags : list starttag) :
  has_pagedata tags = false ->
  page_data json_loads tags = inr (JObj []) /\
  bind_r (page_data json_loads tags) fan_id = inr 0 /\
  bind_r (page_data json_loads tags) last_token = inr (JStr "").
Proof.
  intros H. unfold page_data. rewrite (feed_no_pagedata json_loads None tags H).
  repeat split.
Qed.

Lemma C6_no_pagedata_defaults_witness :
  has_pagedata [("div"%string, [("id"%string, Some "tralbum-art"%string)]);
                ("p"%string, [("id"%string, Some "pagedata"%string)])] = false /\
  page_data (fun _ => inl ValueError)
    [("div"%string, [("id"%string, Some "tralbum-art"%string)]);
     ("p"%string, [("id"%string, Some "pagedata"%string)])] = inr (JObj []).
Proof.
  split; [reflexivity|].
  apply (C6_no_pagedata_defaults (fun _ => inl ValueError)). reflexivity.
Defined.

(** ** The download-url join *)

(** C4: the join keeps the list's length and sets every item's
    [download_url], and nothing else, to the lookup of
    [sale_item_type ++ str(sale_item_id)] in the mapping; an absent key
    gives [None]; the join is a total function (no failure). *)
Theorem C4_join_is_lookup (urls : gmap string string) (items : list item) :
  length (map_download_urls urls items) = length items /\
  forall (i : nat) (a : item), items !! i = Some a ->
    exists b, map_download_urls urls items !! i = Some b /\
      b.(download_url) = urls !! url_key a /\
      (urls !! url_key a = None -> b.(download_url) = None) /\
      b.(sale_item_type) = a.(sale_item_type) /\ b.(sale_item_id) = a.(sale_item_id) /\
      b.(item_id) = a.(item_id) /\ b.(item_title) = a.(item_title) /\
      b.(band_name) = a.(band_name) /\ b.(token) = a.(token).
Proof.
  unfold map_download_urls. split; [apply length_map|].
  intros i a Hi. exists (set_download_url (urls !! url_key a) a).
  rewrite list_lookup_fmap, Hi. simpl.
  repeat split; auto.
Qed.

Lemma C4_join_is_lookup_witness :
  exists b, map_download_urls {[ "album7"%string := "https://bandcamp.com/download?id=7"%string ]}
              [mk_item "album" 7 70 "T" "B" None "t1"; mk_item "track" 8 80 "U" "B" None "t2"]
              !! 1%nat = Some b /\ b.(download_url) = None.
Proof.
  destruct (proj2 (C4_join_is_lookup
             {[ "album7"%string := "https://bandcamp.com/download?id=7"%string ]}
             [mk_item "album" 7 70 "T" "B" None "t1"; mk_item "track" 8 80 "U" "B" None "t2"])
             1%nat (mk_item "track" 8 80 "U" "B" None "t2") eq_refl)
    as [b [Hb [Hu [Hn _]]]].
  exists b. split; [exact Hb|]. apply Hn. reflexivity.
Defined.

(** ** Pagination *)






(** ** Resolving the download URL *)

Lemma http_get_some (u : string) (w : world) :
  http_get (Some u) w =
  match w.(w_server) u with
  | None => (inl ConnectionError, add_get u w)
  | Some r => (inr r, add_get u w)
  end.
Proof. reflexivity. Qed.

(** C10: when the item's download page is fetched and has no [pagedata]
    div, [parse_album] raises [KeyError('digital_items')]; its only effect
    is the one request for that page. *)
Theorem C10_parse_album_missing_blob (json_loads : string -> exn + json)
    (album : item) (w : world) (u : string) (r : response) :
  album.(download_url) = Some u -> w.(w_server) u = Some r ->
  has_pagedata r.(resp_tags) = false ->
  parse_album json_loads album w = (inl (KeyError "digital_items"), add_get u w).
Proof.
  intros Hu Hr Hp. unfold parse_album, bind. rewrite Hu, http_get_some, Hr.
  unfold page_data. rewrite (feed_no_pagedata json_loads None _ Hp). reflexivity.
Qed.

Lemma C10_parse_album_missing_blob_witness :
  parse_album (fun _ => inl ValueError)
    (mk_item "album" 7 70 "T" "B" (Some "https://bandcamp.com/download?id=7"%string) "t")
    (mk_world ∅ ∅
       (fun _ => Some (mk_response [("div"%string, [("class"%string, Some "x"%string)])] (Raw [])))
       [] [])
  = (inl (KeyError "digital_items"),
     add_get "https://bandcamp.com/download?id=7"
       (mk_world ∅ ∅
          (fun _ => Some (mk_response [("div"%string, [("class"%string, Some "x"%string)])] (Raw [])))
          [] [])).
Proof.
  apply (C10_parse_album_missing_blob _ _ _ _
           (mk_response [("div"%string, [("class"%string, Some "x"%string)])] (Raw [])));
    reflexivity.
Defined.

(** ** The lock marker *)

Lemma lock_name_simple (album : item) :
  no_slash (lock_name album) = true /\ starts_slash (lock_name album) = false /\
  lock_name album <> ""%string.
Proof.
  assert (Hn : no_slash (lock_name album) = true).
  { unfold lock_name. rewrite !no_slash_app, str_of_Z_no_slash. reflexivity. }
  split; [exact Hn|]. split; [apply starts_slash_no_slash, Hn|].
  unfold lock_name. discriminate.
Qed.

Lemma marker_path_eq (album : item) (base : string) :
  marker_path album base = norm (download_dir_name album base) ++ [lock_name album].
Proof.
  destruct (lock_name_simple album) as [Hn [Hs Hne]].
  unfold marker_path. rewrite (norm_join _ _ Hs), (comps_no_slash _ Hn Hne). reflexivity.
Qed.

Lemma parent_snoc (l : path) (x : string) : parent (l ++ [x]) = l.
Proof. apply removelast_last. Qed.

Lemma wf_marker_dir (w : world) (album : item) (base : string) :
  wf w -> marker_exists album base w = true ->
  is_dir w (norm (download_dir_name album base)) = true.
Proof.
  intros [Hf Hd] Hm. unfold marker_exists in Hm. rewrite marker_path_eq in Hm.
  destruct (lock_name_simple album) as [_ [_ Hne]].
  rewrite <- (parent_snoc (norm (download_dir_name album base)) (lock_name album)).
  apply orb_true_iff in Hm as [Hm|Hm].
  - unfold is_dir in Hm. apply orb_true_iff in Hm as [Hm|Hm].
    + apply orb_true_iff in Hm as [Hm|Hm]; apply bool_decide_eq_true in Hm.
      * destruct (norm (download_dir_name album base)); discriminate.
      * destruct (norm (download_dir_name album base)) as [|x [|y l]]; simpl in Hm;
          [injection Hm; congruence | discriminate | discriminate].
    + apply bool_decide_eq_true in Hm. apply Hd, Hm.
  - unfold is_file in Hm. destruct (w_files w !! _) eqn:E; [|discriminate].
    eapply Hf, E.
Qed.

Lemma download_dir_existing (album : item) (base : string) (w : world) :
  is_dir w (norm (download_dir_name album base)) = true ->
  download_dir album base w = (inr (download_dir_name album base), w).
Proof.
  intros H. unfold download_dir, bind, os_path_exists. simpl. rewrite H. reflexivity.
Qed.

Lemma locked_marker (album : item) (base : string) (w : world) :
  wf w -> marker_exists album base w = true -> locked album base w = (inr true, w).
Proof.
  intros Hwf Hm. unfold locked, lock_path, bind.
  rewrite (download_dir_existing _ _ _ (wf_marker_dir _ _ _ Hwf Hm)). simpl.
  unfold os_path_exists. fold (marker_path album base).
  unfold marker_exists in Hm. rewrite Hm. reflexivity.
Qed.

Lemma parse_album_state (json_loads : string -> exn + json) (album : item)
    (w : world) (u : string) :
  album.(download_url) = Some u -> snd (parse_album json_loads album w) = add_get u w.
Proof.
  intros Hu. unfold parse_album, bind. rewrite Hu, http_get_some.
  destruct (w_server w u) as [r|]; [|reflexivity].
  destruct (page_data json_loads (resp_tags r)) as [e|d]; [reflexivity|]. simpl.
  destruct (bind_r (py_getitem d "digital_items") py_iter) as [e|ds]; [reflexivity|].
  simpl. destruct (resolve_loop None ds); reflexivity.
Qed.

Lemma add_get_same_tree (u : string) (w : world) :
  (add_get u w).(w_files) = w.(w_files) /\ (add_get u w).(w_dirs) = w.(w_dirs).
Proof. split; reflexivity. Qed.

Lemma wf_add_get (u : string) (w : world) : wf w -> wf (add_get u w).
Proof. intros [Hf Hd]. split; [exact Hf | exact Hd]. Qed.

Lemma marker_exists_add_get (album : item) (base u : string) (w : world) :
  marker_exists album base (add_get u w) = marker_exists album base w.
Proof. reflexivity. Qed.

(** C1 (as the code has it): for an item whose lock marker exists in a
    well-formed tree, [fetch_album] requests nothing, leaves files and
    directories as they are and prints the skip notice.  The main loop,
    however, runs [parse_album] first: the per-item step requests the
    item's download page once, and a failure there propagates before the
    marker is looked at. *)
Theorem C1_fetch_album_skips_locked (json_loads : string -> exn + json)
    (album : item) (base : string) (w : world) :
  wf w -> marker_exists album base w = true ->
  (forall url : option json,
     fetch_album album base url w =
     (inr tt, add_out ("Skipping already fetched album, " ++ album_name album)%string w)) /\
  (forall u : string, album.(download_url) = Some u ->
     process_album json_loads album base w =
     match fst (parse_album json_loads album w) with
     | inl e => (inl e, add_get u w)
     | inr _ => (inr tt, add_out ("Skipping already fetched album, " ++ album_name album)%string
                                 (add_get u w))
     end).
Proof.
  intros Hwf Hm.
  assert (Hskip : forall w', wf w' -> marker_exists album base w' = true ->
            forall url, fetch_album album base url w' =
            (inr tt, add_out ("Skipping already fetched album, " ++ album_name album)%string w')).
  { intros w' Hwf' Hm' url. unfold fetch_album, bind.
    rewrite (locked_marker _ _ _ Hwf' Hm'). reflexivity. }
  split; [apply Hskip; assumption|].
  intros u Hu. unfold process_album, bind.
  pose proof (parse_album_state json_loads album w u Hu) as Hs.
  destruct (parse_album json_loads album w) as [[e|v] w'] eqn:E; simpl in Hs; subst w'.
  - reflexivity.
  - apply Hskip; [apply wf_add_get, Hwf | rewrite marker_exists_add_get; exact Hm].
Qed.

Lemma C1_fetch_album_skips_locked_witness :
  let album := mk_item "album" 7 7 "T" "B" (Some "https://bandcamp.com/download?id=7"%string) "t" in
  let w := mk_world {[ ["Music"; "B"; "T"; ".7.lock"]%string := Raw [] ]}
             {[ ["Music"]%string; ["Music"; "B"]%string; ["Music"; "B"; "T"]%string ]}
             (fun _ => None) [] [] in
  fetch_album album "Music" None w =
  (inr tt, add_out "Skipping already fetched album, B - T" w).
Proof.
  intros album w.
  refine (proj1 (C1_fetch_album_skips_locked (fun _ => inl ValueError) album "Music" w _ _) None).
  - split.
    + intros p c Hp. cbv delta [w] in Hp. simpl in Hp.
      apply lookup_singleton_Some in Hp as [<- _]. reflexivity.
    + intros d Hd. cbv delta [w] in Hd. simpl in Hd.
      repeat (apply elem_of_union in Hd as [Hd|Hd]); apply elem_of_singleton in Hd; subst d;
        reflexivity.
  - reflexivity.
Defined.

(** C1 fails as stated for the per-item step of the program: on a locked
    item it still performs the request for the download page. *)
Lemma C1_counterexample :
  let url := "https://bandcamp.com/download?id=7"%string in
  let album := mk_item "album" 7 7 "T" "B" (Some url) "t" in
  let page := mk_response [("div"%string, [("id"%string, Some "pagedata"%string);
                                           ("data-blob"%string, Some "{}"%string)])] (Raw []) in
  let blob := JObj [("digital_items"%string,
                JArr [JObj [("downloads"%string,
                  JObj [("mp3-v0"%string, JObj [("url"%string, JStr "https://x/7.zip")])])]])] in
  let w := mk_world {[ ["Music"; "B"; "T"; ".7.lock"]%string := Raw [] ]}
             {[ ["Music"]%string; ["Music"; "B"]%string; ["Music"; "B"; "T"]%string ]}
             (fun _ => Some page) [] [] in
  marker_exists album "Music" w = true /\
  fst (process_album (fun _ => inr blob) album "Music" w) = inr tt /\
  (snd (process_album (fun _ => inr blob) album "Music" w)).(w_gets) = [url] /\
  w.(w_gets) = [].
Proof. vm_compute. repeat split. Qed.

(** ** File names of an item *)

Lemma list_ascii_of_string_app (s t : string) :
  list_ascii_of_string (s ++ t) = list_ascii_of_string s ++ list_ascii_of_string t.
Proof.
  induction s as [|c r IH]; [reflexivity|].
  change (String c r ++ t)%string with (String c (r ++ t)). simpl. rewrite IH. reflexivity.
Qed.

Ltac names_differ :=
  let H := fresh "H" in
  intros H; apply (f_equal (fun x => head (rev (list_ascii_of_string x)))) in H;
  rewrite ?list_ascii_of_string_app, ?rev_app_distr in H; simpl in H; discriminate H.

Lemma zip_mp3_differ (s t : string) : (s ++ ".zip")%string <> (t ++ ".mp3")%string.
Proof. names_differ. Qed.



Lemma norm_join_name (d x : string) :
  no_slash x = true -> x <> ""%string -> norm (join d x) = norm d ++ [x].
Proof.
  intros Hn Hne. rewrite (norm_join _ _ (starts_slash_no_slash _ Hn)), (comps_no_slash _ Hn Hne).
  reflexivity.
Qed.

Lemma zip_name_simple (album : item) : no_slash (zip_name album) = true /\ zip_name album <> ""%string.
Proof.
  unfold zip_name. rewrite no_slash_app, str_of_Z_no_slash. split; [reflexivity|].
  destruct (str_of_Z (item_id album)); discriminate.
Qed.

Lemma mp3_name_simple (album : item) :
  no_slash album.(item_title) = true -> no_slash (mp3_name album) = true /\ mp3_name album <> ""%string.
Proof.
  intros Ht. unfold mp3_name. rewrite no_slash_app, Ht. split; [reflexivity|].
  destruct (item_title album); discriminate.
Qed.

Lemma norm_download_path (album : item) (base : string) :
  norm (join (download_dir_name album base) (zip_name album)) = zip_path album base.
Proof. destruct (zip_name_simple album). apply norm_join_name; assumption. Qed.

(** ** extract *)

Lemma wf_parent_of_file (w : world) (l : path) (x : string) (c : payload) :
  wf w -> w.(w_files) !! (l ++ [x]) = Some c -> is_dir w l = true.
Proof.
  intros [Hf _] Hc. rewrite <- (parent_snoc l x). eapply Hf, Hc.
Qed.

Lemma download_path_run (album : item) (base : string) (w : world) :
  is_dir w (norm (download_dir_name album base)) = true ->
  download_path album base w = (inr (join (download_dir_name album base) (zip_name album)), w).
Proof.
  intros H. unfold download_path, bind. rewrite (download_dir_existing _ _ _ H). reflexivity.
Qed.

Lemma extract_archive_run (album : item) (base : string) (w : world) ms :
  wf w -> w.(w_files) !! zip_path album base = Some (Archive ms) ->
  extract album base w = extractall (norm (download_dir_name album base)) ms w.
Proof.
  intros Hwf Hz. pose proof (wf_parent_of_file _ _ _ _ Hwf Hz) as Hd.
  unfold extract, bind. rewrite (download_path_run _ _ _ Hd), norm_download_path.
  unfold read_file. rewrite Hz. rewrite (download_dir_existing _ _ _ Hd). reflexivity.
Qed.

Lemma extract_raw_run (album : item) (base : string) (w : world) b :
  wf w -> w.(w_files) !! zip_path album base = Some (Raw b) ->
  no_slash album.(item_title) = true ->
  extract album base w =
  os_rename (zip_path album base) (norm (download_dir_name album base) ++ [mp3_name album]) w.
Proof.
  intros Hwf Hz Ht. pose proof (wf_parent_of_file _ _ _ _ Hwf Hz) as Hd.
  destruct (mp3_name_simple album Ht) as [Hn Hne].
  unfold extract, bind. rewrite (download_path_run _ _ _ Hd), norm_download_path.
  unfold read_file. rewrite Hz. simpl.
  rewrite (download_path_run _ _ _ Hd), (download_dir_existing _ _ _ Hd).
  rewrite norm_download_path, (norm_join_name _ _ Hn Hne). reflexivity.
Qed.

Lemma rename_run (src dst : path) (c : payload) (w : world) :
  w.(w_files) !! src = Some c -> src <> dst -> is_dir w dst = false ->
  is_dir w (parent dst) = true ->
  os_rename src dst w = (inr tt, set_files (<[dst := c]> (delete src w.(w_files))) w).
Proof.
  intros Hs Hne Hd Hp. unfold os_rename. rewrite Hs.
  rewrite bool_decide_false by exact Hne. rewrite Hd, Hp. reflexivity.
Qed.

(** Targets of an archive's members under a directory. *)
Lemma extract_member_files (dir : path) (m : string * payload) (w w1 : world) :
  extract_member dir m w = (inr tt, w1) ->
  (forall q, q <> dir ++ sanitize m.1 -> w1.(w_files) !! q = w.(w_files) !! q) /\
  (ends_slash m.1 = false -> w1.(w_files) !! (dir ++ sanitize m.1) = Some m.2).
Proof.
  unfold extract_member, bind, os_path_exists. simpl.
  set (t := dir ++ sanitize m.1).
  set (up := parent t).
  (* the optional makedirs keeps the files *)
  assert (Hmk : forall w0, w_files (snd ((if negb (bool_decide (up = [])) &&
              negb (is_dir w up || is_file w up) then os_makedirs up else ret tt) w0)) =
              w_files w0).
  { intros w0. destruct (negb _ && negb _); [|reflexivity].
    unfold os_makedirs. destruct (is_dir w0 up || is_file w0 up); [reflexivity|].
    destruct (existsb _ _); reflexivity. }
  destruct ((if negb (bool_decide (up = [])) && negb (is_dir w up || is_file w up)
             then os_makedirs up else ret tt) w) as [[e|[]] w0] eqn:E; [discriminate|].
  specialize (Hmk w). rewrite E in Hmk. simpl in Hmk.
  destruct (ends_slash m.1).
  - unfold os_path_isdir. simpl. destruct (is_dir w0 t).
    + intros H. injection H as <-. split; [intros q _; rewrite Hmk; reflexivity | discriminate].
    + unfold os_mkdir. destruct (is_dir w0 t || is_file w0 t); [discriminate|].
      destruct (is_dir w0 (parent t)); [|discriminate].
      intros H. injection H as <-. split; [intros q _; simpl; rewrite Hmk; reflexivity | discriminate].
  - unfold write_file. destruct (is_dir w0 t); [discriminate|].
    destruct (is_dir w0 (parent t)); [|discriminate].
    intros H. injection H as <-. simpl. split.
    + intros q Hq. rewrite lookup_insert_ne by congruence. rewrite Hmk. reflexivity.
    + intros _. apply lookup_insert_eq.
Qed.

Lemma extractall_files (dir : path) (ms : list (string * payload)) (w w' : world) :
  extractall dir ms w = (inr tt, w') ->
  (forall q, (forall m, m ∈ ms -> q <> dir ++ sanitize m.1) ->
     w'.(w_files) !! q = w.(w_files) !! q) /\
  (forall (i : nat) m, ms !! i = Some m -> ends_slash m.1 = false ->
     (forall (j : nat) m', (i < j)%nat -> ms !! j = Some m' -> sanitize m'.1 <> sanitize m.1) ->
     w'.(w_files) !! (dir ++ sanitize m.1) = Some m.2).
Proof.
  revert w. induction ms as [|m rest IH]; intros w.
  - simpl. intros H. injection H as <-. split; [reflexivity|].
    intros i m Hi. rewrite lookup_nil in Hi. discriminate.
  - simpl. unfold bind at 1.
    destruct (extract_member dir m w) as [[e|[]] w1] eqn:E; [discriminate|].
    intros H. destruct (extract_member_files dir m w w1 E) as [Hf1 Hm1].
    destruct (IH w1 H) as [Hf2 Hm2]. split.
    + intros q Hq. rewrite Hf2.
      * apply Hf1, Hq. left.
      * intros m' Hm'. apply Hq. right. exact Hm'.
    + intros [|i] m' Hi Hs Hlater.
      * injection Hi as <-. rewrite Hf2; [apply Hm1, Hs|].
        intros m' Hm' Heq. apply app_inv_head in Heq.
        apply list_elem_of_lookup in Hm' as [j Hj].
        apply (Hlater (S j) m'); [lia | exact Hj | symmetry; exact Heq].
      * apply (Hm2 i m' Hi Hs). intros j m'' Hij Hj. apply (Hlater (S j)); [lia | exact Hj].
Qed.

Lemma in_prefixes (p : path) : p <> [] -> p ∈ prefixes p.
Proof.
  intros Hp. unfold prefixes. apply list_elem_of_fmap. exists (length p).
  split; [rewrite take_ge by lia; reflexivity|].
  apply list_elem_of_In, in_seq. destruct p; [contradiction|simpl; lia].
Qed.

Lemma prefixes_parent (q t : path) : q ∈ prefixes (parent t) -> q ∈ prefixes t.
Proof.
  unfold prefixes, parent. rewrite removelast_firstn_len.
  intros H. apply list_elem_of_fmap in H as [n [-> Hn]].
  apply list_elem_of_In, in_seq in Hn. rewrite length_take in Hn.
  apply list_elem_of_fmap. exists n. split.
  - rewrite take_take. f_equal. lia.
  - apply list_elem_of_In, in_seq. lia.
Qed.

(** The directories a member's extraction creates lie on its target. *)
Lemma extract_member_dirs (dir : path) (m : string * payload) (w w1 : world) :
  extract_member dir m w = (inr tt, w1) ->
  forall d, d ∈ w1.(w_dirs) -> d ∈ w.(w_dirs) \/ d ∈ prefixes (dir ++ sanitize m.1).
Proof.
  unfold extract_member, bind, os_path_exists. simpl.
  set (t := dir ++ sanitize m.1).
  set (up := parent t).
  assert (Hmk : forall w0, (if negb (bool_decide (up = [])) &&
              negb (is_dir w up || is_file w up) then os_makedirs up else ret tt) w = (inr tt, w0) ->
              forall d, d ∈ w0.(w_dirs) -> d ∈ w.(w_dirs) \/ d ∈ prefixes t).
  { intros w0 H d Hd. destruct (negb _ && negb _).
    - unfold os_makedirs in H. destruct (is_dir w up || is_file w up); [discriminate|].
      destruct (existsb _ _); [discriminate|].
      injection H as <-. simpl in Hd. apply elem_of_union in Hd as [Hd|Hd]; [left; exact Hd|].
      right. apply elem_of_list_to_set in Hd. apply prefixes_parent, Hd.
    - injection H as <-. left. exact Hd. }
  destruct ((if negb (bool_decide (up = [])) && negb (is_dir w up || is_file w up)
             then os_makedirs up else ret tt) w) as [[e|[]] w0] eqn:E; [discriminate|].
  specialize (Hmk w0 eq_refl).
  destruct (ends_slash m.1).
  - unfold os_path_isdir. simpl. destruct (is_dir w0 t) eqn:Ht.
    + intros H. injection H as <-. exact Hmk.
    + unfold os_mkdir. rewrite Ht. simpl. destruct (is_file w0 t); [discriminate|].
      destruct (is_dir w0 (parent t)); [|discriminate].
      intros H. injection H as <-. intros d Hd. simpl in Hd.
      apply elem_of_union in Hd as [Hd|Hd]; [|apply Hmk, Hd].
      apply elem_of_singleton in Hd. subst d. right. apply in_prefixes.
      intros E0. rewrite E0 in Ht. unfold is_dir in Ht.
      rewrite bool_decide_eq_true_2 in Ht by reflexivity. discriminate.
  - unfold write_file. destruct (is_dir w0 t); [discriminate|].
    destruct (is_dir w0 (parent t)); [|discriminate].
    intros H. injection H as <-. exact Hmk.
Qed.

Lemma extractall_dirs (dir : path) (ms : list (string * payload)) (w w' : world) :
  extractall dir ms w = (inr tt, w') ->
  forall d, d ∈ w'.(w_dirs) ->
    d ∈ w.(w_dirs) \/ exists m, m ∈ ms /\ d ∈ prefixes (dir ++ sanitize m.1).
Proof.
  revert w. induction ms as [|m rest IH]; intros w.
  - simpl. intros H. injection H as <-. intros d Hd. left. exact Hd.
  - simpl. unfold bind at 1.
    destruct (extract_member dir m w) as [[e|[]] w1] eqn:E; [discriminate|].
    intros H d Hd. destruct (IH w1 H d Hd) as [H1|[m' [Hm' Hd']]].
    + destruct (extract_member_dirs dir m w w1 E d H1) as [H2|H2]; [left; exact H2|].
      right. exists m. split; [left|exact H2].
    + right. exists m'. split; [right; exact Hm'|exact Hd'].
Qed.

(** C5 (amended): in a tree where every file and directory sits in an
    existing directory, and for an item directory path with no ["."] or
    [".."] component: a downloaded file that is not an archive is renamed
    to [{item_title}.mp3] in the item's directory, without error: the zip
    name no longer exists, the new name holds the bytes, nothing else
    changes; this holds for titles without a slash and when no directory
    sits at the new name.  For a valid archive none of whose members
    targets the zip's own path ([zipfile] reads each member lazily from
    the open archive, which a write to that path would truncate), an
    extraction that completes leaves the file at every path that is no
    member's target as it was, holds every file member at its target (a
    later member of the same target wins), keeps the zip under its name
    with its content, and creates no directory but member targets and
    their parents. *)
Theorem C5_extract_outcomes (album : item) (base : string) (w : world) :
  wf w -> plain (norm (download_dir_name album base)) = true ->
  (forall b, w.(w_files) !! zip_path album base = Some (Raw b) ->
     no_slash album.(item_title) = true ->
     is_dir w (norm (download_dir_name album base) ++ [mp3_name album]) = false ->
     extract album base w =
       (inr tt, set_files (<[norm (download_dir_name album base) ++ [mp3_name album] := Raw b]>
                            (delete (zip_path album base) w.(w_files))) w) /\
     (snd (extract album base w)).(w_files) !! zip_path album base = None /\
     (snd (extract album base w)).(w_files) !!
        (norm (download_dir_name album base) ++ [mp3_name album]) = Some (Raw b)) /\
  (forall ms w', w.(w_files) !! zip_path album base = Some (Archive ms) ->
     (forall m, m ∈ ms -> sanitize m.1 <> [zip_name album]) ->
     extract album base w = (inr tt, w') ->
     (forall q, (forall m, m ∈ ms -> q <> norm (download_dir_name album base) ++ sanitize m.1) ->
        w'.(w_files) !! q = w.(w_files) !! q) /\
     (forall (i : nat) m, ms !! i = Some m -> ends_slash m.1 = false ->
        (forall (j : nat) m', (i < j)%nat -> ms !! j = Some m' -> sanitize m'.1 <> sanitize m.1) ->
        w'.(w_files) !! (norm (download_dir_name album base) ++ sanitize m.1) = Some m.2) /\
     w'.(w_files) !! zip_path album base = Some (Archive ms) /\
     (forall d, d ∈ w'.(w_dirs) -> d ∈ w.(w_dirs) \/
        exists m, m ∈ ms /\ d ∈ prefixes (norm (download_dir_name album base) ++ sanitize m.1))).
Proof.
  intros Hwf _. split.
  - intros b Hz Ht Hd.
    assert (Hne : zip_path album base <> norm (download_dir_name album base) ++ [mp3_name album]).
    { unfold zip_path. intros Heq. apply app_inv_head in Heq. injection Heq.
      apply zip_mp3_differ. }
    assert (Hrun : extract album base w =
       (inr tt, set_files (<[norm (download_dir_name album base) ++ [mp3_name album] := Raw b]>
                            (delete (zip_path album base) w.(w_files))) w)).
    { rewrite (extract_raw_run _ _ _ b Hwf Hz Ht).
      apply rename_run; [exact Hz | exact Hne | exact Hd |].
      rewrite parent_snoc. unfold zip_path in Hz. eapply wf_parent_of_file; eassumption. }
    split; [exact Hrun|]. rewrite Hrun. simpl. split.
    + rewrite lookup_insert_ne by (intros E; apply Hne; symmetry; exact E).
      apply lookup_delete_eq.
    + apply lookup_insert_eq.
  - intros ms w' Hz Hno Hrun. rewrite (extract_archive_run _ _ _ ms Hwf Hz) in Hrun.
    destruct (extractall_files _ _ _ _ Hrun) as [Hf Hm].
    split; [exact Hf|]. split; [exact Hm|]. split.
    + rewrite Hf; [exact Hz|].
      intros m Hm' Heq. unfold zip_path in Heq. apply app_inv_head in Heq.
      apply (Hno m Hm'). symmetry. exact Heq.
    + apply (extractall_dirs _ _ _ _ Hrun).
Qed.

Lemma C5_extract_outcomes_witness :
  let album := mk_item "album" 7 7 "T" "B" None "t" in
  let w := mk_world {[ ["Music"; "B"; "T"; "7.zip"]%string := Raw [Byte.x49; Byte.x44; Byte.x33] ]}
             {[ ["Music"]%string; ["Music"; "B"]%string; ["Music"; "B"; "T"]%string ]}
             (fun _ => None) [] [] in
  (snd (extract album "Music" w)).(w_files) !! ["Music"; "B"; "T"; "T.mp3"]%string =
    Some (Raw [Byte.x49; Byte.x44; Byte.x33]).
Proof.
  intros album w.
  refine (proj2 (proj2 (proj1 (C5_extract_outcomes album "Music" w _ (eq_refl _))
                                [Byte.x49; Byte.x44; Byte.x33] _ _ _))).
  - split.
    + intros p c Hp. cbv delta [w] in Hp. simpl in Hp.
      apply lookup_singleton_Some in Hp as [<- _]. reflexivity.
    + intros d Hd. cbv delta [w] in Hd. simpl in Hd.
      repeat (apply elem_of_union in Hd as [Hd|Hd]); apply elem_of_singleton in Hd; subst d;
        reflexivity.
  - reflexivity.
  - reflexivity.
  - reflexivity.
Defined.

(** C5 fails as stated: a valid archive holding a file ["a"] and then a
    member ["a/b"] makes extraction raise [NotADirectoryError] (the
    second member's directory is the first member's file), so the
    archive's entries are not all extracted and the error surfaces; and a
    title with a slash makes the rename raise [FileNotFoundError]. *)
Lemma C5_counterexample :
  let album := mk_item "album" 7 7 "T" "B" None "t" in
  let w := mk_world {[ ["Music"; "B"; "T"; "7.zip"]%string :=
                         Archive [("a"%string, Raw [Byte.x01]); ("a/b"%string, Raw [])] ]}
             {[ ["Music"]%string; ["Music"; "B"]%string; ["Music"; "B"; "T"]%string ]}
             (fun _ => None) [] [] in
  let album2 := mk_item "album" 7 7 "Split w/ Friends" "B" None "t" in
  let w2 := mk_world {[ ["Music"; "B"; "Split w"; " Friends"; "7.zip"]%string := Raw [Byte.x01] ]}
             {[ ["Music"]%string; ["Music"; "B"]%string; ["Music"; "B"; "Split w"]%string;
                ["Music"; "B"; "Split w"; " Friends"]%string ]}
             (fun _ => None) [] [] in
  fst (extract album "Music" w) = inl NotADirectoryError /\
  (snd (extract album "Music" w)).(w_files) !! ["Music"; "B"; "T"; "a"; "b"]%string = None /\
  fst (extract album2 "Music" w2) = inl FileNotFoundError.
Proof. vm_compute. repeat split. Qed.

(** ** The lock marker is only written by [lock] *)








Lemma frame_print (q : path) (l : string) : frame q (print l).
Proof. intros w Hw. split; [exact Hw|reflexivity]. Qed.


Lemma frame_read (q p : path) : frame q (read_file p).
Proof.
  intros w Hw. unfold read_file. destruct (w_files w !! p); split; try exact Hw; reflexivity.
Qed.

















Lemma download_dir_result (album : item) (base : string) w d w' :
  download_dir album base w = (inr d, w') -> d = download_dir_name album base.
Proof.
  unfold download_dir, bind, os_path_exists. simpl.
  destruct (_ || _); [intros H; injection H; auto|].
  unfold os_makedirs. destruct (_ || _); [discriminate|].
  destruct (existsb _ _); [discriminate|]. intros H; injection H; auto.
Qed.


Lemma lock_path_result (album : item) (base : string) w p w' :
  lock_path album base w = (inr p, w') -> norm p = marker_path album base.
Proof.
  unfold lock_path, bind.
  destruct (download_dir album base w) as [[e|d] w1] eqn:E; [discriminate|].
  apply download_dir_result in E. subst d. intros H. injection H as <- _. reflexivity.
Qed.



























(** ** Cookie store *)

Lemma parse_cookie_list_from_app (now : Z) (l1 l2 : list cookie) (j : jar) :
  parse_cookie_list_from now (l1 ++ l2) j =
  parse_cookie_list_from now l2 (parse_cookie_list_from now l1 j).
Proof.
  revert j. induction l1 as [|c l1 IH]; intros j; [reflexivity|].
  simpl. destruct (skipped now c); apply IH.
Qed.

Lemma parse_cookie_list_from_other (now : Z) (cs : list cookie) (j : jar) k :
  Forall (fun c => cookie_key c <> k) cs ->
  parse_cookie_list_from now cs j !! k = j !! k.
Proof.
  revert j. induction cs as [|c cs IH]; intros j Hf; [reflexivity|].
  inversion Hf as [|? ? Hc Hcs]; subst. simpl. destruct (skipped now c).
  - apply IH, Hcs.
  - rewrite IH by exact Hcs. unfold jar_set. apply lookup_insert_ne. exact Hc.
Qed.

Lemma skipped_false (now : Z) (c : cookie) :
  skipped now c = false -> not_expired now c.(c_expiry).
Proof.
  unfold skipped, not_expired. destruct (c_expiry c) as [e|]; [|trivial].
  intros H. apply andb_false_iff in H as [H|H].
  - apply negb_false_iff, Z.eqb_eq in H. left. exact H.
  - apply Z.ltb_ge in H. right. exact H.
Qed.

Lemma parse_cookie_list_from_fresh (now : Z) (cs : list cookie) (j : jar) :
  (forall k v x, j !! k = Some (v, x) -> not_expired now x) ->
  forall k v x, parse_cookie_list_from now cs j !! k = Some (v, x) -> not_expired now x.
Proof.
  revert j. induction cs as [|c cs IH]; intros j Hj; [exact Hj|].
  simpl. destruct (skipped now c) eqn:Hsk; apply IH; [exact Hj|].
  intros k v x. unfold jar_set. destruct (decide (cookie_key c = k)) as [<-|Hne].
  - rewrite lookup_insert_eq. intros H. injection H as _ <-. apply skipped_false, Hsk.
  - rewrite lookup_insert_ne by exact Hne. apply Hj.
Qed.

(** C2 (amended): the store built by [parse_cookie_list] never holds a
    cookie whose expiry is set, nonzero and strictly less than [now]; a
    record with no expiry or an expiry at or after [now] is stored under
    (name, domain, path) with its expiry and its value, a double-quoted
    value losing its backslash-escaped quotes, unless a later record has
    the same key. *)
Theorem C2_cookie_store (now : Z) (cs : list cookie) :
  (forall k v e, parse_cookie_list now cs !! k = Some (v, Some e) -> e <> 0 -> now <= e) /\
  (forall pre c post, cs = pre ++ c :: post ->
     match c.(c_expiry) with None => True | Some e => now <= e end ->
     Forall (fun c' => cookie_key c' <> cookie_key c) post ->
     parse_cookie_list now cs !! cookie_key c = Some (stored_value c.(c_value), c.(c_expiry))).
Proof.
  split.
  - intros k v e H Hne.
    assert (Hn : not_expired now (Some e)).
    { apply (parse_cookie_list_from_fresh now cs ∅) with k v; [|exact H].
      intros k' v' x H'. rewrite lookup_empty in H'. discriminate. }
    destruct Hn as [He|He]; [contradiction|exact He].
  - intros pre c post -> Hexp Hpost. unfold parse_cookie_list.
    rewrite parse_cookie_list_from_app. simpl.
    assert (Hsk : skipped now c = false).
    { unfold skipped. destruct (c_expiry c) as [e|]; [|reflexivity].
      apply andb_false_iff. right. apply Z.ltb_ge, Hexp. }
    rewrite Hsk, parse_cookie_list_from_other by exact Hpost.
    unfold jar_set. apply lookup_insert_eq.
Qed.

Lemma C2_cookie_store_witness :
  let c := mk_cookie "client_id" "abc" ".bandcamp.com" "/" (Some 200) in
  parse_cookie_list 100 [mk_cookie "old" "x" ".bandcamp.com" "/" (Some 50); c]
    !! cookie_key c = Some ("abc"%string, Some 200).
Proof.
  intros c.
  apply (proj2 (C2_cookie_store 100 [mk_cookie "old" "x" ".bandcamp.com" "/" (Some 50); c])
           [mk_cookie "old" "x" ".bandcamp.com" "/" (Some 50)] c []).
  - reflexivity.
  - simpl. lia.
  - constructor.
Defined.

(** An expiry of 0 is falsy and kept; a later record with the same key
    replaces an earlier one; a double-quoted value is unescaped. *)
Lemma C2_counterexample :
  let q := String "034" EmptyString in
  let quoted := (q ++ "a\" ++ q ++ "b" ++ q)%string in
  let c0 := mk_cookie "a" "v" "d" "/" (Some 0) in
  let c1 := mk_cookie "n" "1" "d" "/" None in
  let c2 := mk_cookie "n" "2" "d" "/" None in
  let c3 := mk_cookie "s" quoted "d" "/" None in
  parse_cookie_list 100 [c0] !! cookie_key c0 = Some ("v"%string, Some 0) /\
  parse_cookie_list 100 [c1; c2] !! cookie_key c1 = Some ("2"%string, None) /\
  parse_cookie_list 100 [c3] !! cookie_key c3 = Some ((q ++ "ab" ++ q)%string, None).
Proof. vm_compute. repeat split. Qed.

(** ** Browser login *)

Lemma no_quit_bind {A B} (c : M auth_world A) (k : A -> M auth_world B) :
  no_quit c -> (forall a, no_quit (k a)) -> no_quit (bind c k).
Proof.
  intros Hc Hk w. destruct (Hc w) as [ops1 [Hf1 Hw1]]. unfold bind.
  destruct (c w) as [[e|a] w1]; simpl in Hw1; subst w1.
  - exists ops1. split; [exact Hf1|reflexivity].
  - destruct (Hk a (mk_auth_world (a_cache w) (a_clock w) (a_fails w) (a_browser_cookies w)
                      (a_browser_open w) (a_events w ++ map BrowserCall ops1))) as [ops2 [Hf2 Hw2]].
    exists (ops1 ++ ops2). split; [apply Forall_app; split; assumption|].
    rewrite Hw2. simpl. rewrite map_app, app_assoc. reflexivity.
Qed.

Lemma no_quit_driver (op : browser_op) : op <> Quit -> no_quit (driver op).
Proof.
  intros Hop w. exists [op]. split; [constructor; [exact Hop|constructor]|].
  unfold driver. destruct (a_fails w op); reflexivity.
Qed.

Lemma no_quit_login_steps (username password : string) : no_quit (login_steps username password).
Proof.
  unfold login_steps.
  unfold get_cookies.
  repeat (apply no_quit_bind; [apply no_quit_driver; discriminate| intros _]).
  intros w. exists []. split; [constructor|]. simpl. rewrite app_nil_r.
  destruct w; reflexivity.
Qed.

Lemma login_steps_result (username password : string) (w w1 : auth_world) cs :
  login_steps username password w = (inr cs, w1) -> cs = w.(a_browser_cookies).
Proof.
  unfold login_steps, get_cookies, bind, driver, log_event. intros H. simpl in H.
  repeat match type of H with context [a_fails w ?op] => destruct (a_fails w op); simpl in H end;
    try discriminate; injection H as <- _; reflexivity.
Qed.

Lemma browser_login_launch_fails (username password : string) (w : auth_world) :
  w.(a_fails) Launch = true ->
  browser_login username password w = (inl WebDriverException, log_event (BrowserCall Launch) w).
Proof. intros H. unfold browser_login, launch, bind, driver. rewrite H. reflexivity. Qed.

Lemma browser_login_run (username password : string) (w : auth_world) :
  w.(a_fails) Launch = false ->
  browser_login username password w =
  let w0 := set_open true (log_event (BrowserCall Launch) w) in
  match login_steps username password w0 with
  | (r, w1) =>
      let w2 := set_open false (log_event (BrowserCall Quit) w1) in
      match r with
      | inl e => (inl e, w2)
      | inr cs => (inr (parse_cookie_list w2.(a_clock) cs),
                   set_cache cs (log_event (CacheWrite cs) w2))
      end
  end.
Proof.
  intros H. unfold browser_login, launch, bind, driver. rewrite H. simpl.
  unfold try_finally, quit.
  destruct (login_steps username password _) as [[e|cs] w1]; reflexivity.
Qed.

Lemma browser_login_closed (username password : string) (w : auth_world) :
  w.(a_browser_open) = false -> (snd (browser_login username password w)).(a_browser_open) = false.
Proof.
  intros Ho. destruct (w.(a_fails) Launch) eqn:HL.
  - rewrite browser_login_launch_fails by exact HL. exact Ho.
  - rewrite browser_login_run by exact HL. simpl.
    destruct (login_steps _ _ _) as [[e|cs] w1]; reflexivity.
Qed.

Lemma browser_login_success (username password : string) (w w' : auth_world) (j : jar) :
  browser_login username password w = (inr j, w') ->
  w'.(a_cache) = Some w.(a_browser_cookies) /\
  j = parse_cookie_list w.(a_clock) w.(a_browser_cookies) /\
  exists evs, w'.(a_events) = evs ++ [CacheWrite w.(a_browser_cookies)].
Proof.
  destruct (w.(a_fails) Launch) eqn:HL.
  - rewrite browser_login_launch_fails by exact HL. discriminate.
  - rewrite browser_login_run by exact HL. simpl.
    set (w0 := set_open true (log_event (BrowserCall Launch) w)).
    destruct (no_quit_login_steps username password w0) as [ops [_ Hw1]].
    destruct (login_steps username password w0) as [[e|cs] w1] eqn:E; [discriminate|].
    apply login_steps_result in E. simpl in Hw1. subst w1 cs.
    intros H. injection H as <- <-. simpl.
    split; [reflexivity|]. split; [reflexivity|]. eexists. reflexivity.
Qed.

(** C7 (amended): when the [.cookies] cache exists and [jar.get] of both
    ["client_id"] and ["identity"] on the store built from it returns a
    value (a cookie of that name with a nonempty value), [bandcamp_login]
    returns that store and the world is untouched: no browser call.  When
    the cache is missing or a lookup returns [None] (no such cookie, or an
    empty value), it runs the browser login; when a lookup finds two
    cookies of that name, [CookieConflictError] propagates.  A browser
    login that succeeds writes the raw cookie list it read from the browser
    to the cache, replacing what was there, and returns the store built
    from that list. *)
Theorem C7_login_cache (username password : string) (w : auth_world) :
  (forall cs v1 v2, w.(a_cache) = Some cs ->
     jar_get "client_id" (parse_cookie_list w.(a_clock) cs) = inr (Some v1) ->
     jar_get "identity" (parse_cookie_list w.(a_clock) cs) = inr (Some v2) ->
     bandcamp_login username password w = (inr (parse_cookie_list w.(a_clock) cs), w)) /\
  ((w.(a_cache) = None \/
    exists cs, w.(a_cache) = Some cs /\
      (jar_get "client_id" (parse_cookie_list w.(a_clock) cs) = inr None \/
       exists v1, jar_get "client_id" (parse_cookie_list w.(a_clock) cs) = inr (Some v1) /\
                  jar_get "identity" (parse_cookie_list w.(a_clock) cs) = inr None)) ->
   bandcamp_login username password w = browser_login username password w) /\
  (forall cs e, w.(a_cache) = Some cs ->
     (jar_get "client_id" (parse_cookie_list w.(a_clock) cs) = inl e \/
      exists v1, jar_get "client_id" (parse_cookie_list w.(a_clock) cs) = inr (Some v1) /\
                 jar_get "identity" (parse_cookie_list w.(a_clock) cs) = inl e) ->
     bandcamp_login username password w = (inl e, w)) /\
  (forall j w', browser_login username password w = (inr j, w') ->
     w'.(a_cache) = Some w.(a_browser_cookies) /\
     j = parse_cookie_list w.(a_clock) w.(a_browser_cookies) /\
     exists evs, w'.(a_events) = evs ++ [CacheWrite w.(a_browser_cookies)]).
Proof.
  unfold bandcamp_login, bind, cache_exists, read_cache, time_time.
  split; [|split; [|split]].
  - intros cs v1 v2 Hc H1 H2. rewrite !Hc. cbn -[jar_get parse_cookie_list browser_login]. rewrite H1. cbn -[jar_get parse_cookie_list browser_login]. rewrite H2. reflexivity.
  - intros [Hc|[cs [Hc [H1|[v1 [H1 H2]]]]]]; rewrite !Hc; cbn -[jar_get parse_cookie_list browser_login].
    + reflexivity.
    + rewrite H1. reflexivity.
    + rewrite H1. cbn -[jar_get parse_cookie_list browser_login]. rewrite H2. reflexivity.
  - intros cs e Hc [H1|[v1 [H1 H2]]]; rewrite !Hc; cbn -[jar_get parse_cookie_list browser_login].
    + rewrite H1. reflexivity.
    + rewrite H1. cbn -[jar_get parse_cookie_list browser_login]. rewrite H2. reflexivity.
  - intros j w'. apply browser_login_success.
Qed.

Lemma C7_login_cache_witness :
  let cs := [mk_cookie "client_id" "c" ".bandcamp.com" "/" None;
             mk_cookie "identity" "i" ".bandcamp.com" "/" None] in
  let w := mk_auth_world (Some cs) 100 (fun _ => false) [] false [] in
  bandcamp_login "u" "p" w = (inr (parse_cookie_list 100 cs), w).
Proof.
  intros cs w.
  apply (proj1 (C7_login_cache "u" "p" w) cs "c"%string "i"%string); vm_compute; reflexivity.
Defined.

(** A [client_id] cookie with an empty value sends the login to the
    browser; two [client_id] cookies raise [CookieConflictError]. *)
Lemma C7_counterexample :
  let cs1 := [mk_cookie "client_id" "" ".bandcamp.com" "/" None;
              mk_cookie "identity" "i" ".bandcamp.com" "/" None] in
  let cs2 := [mk_cookie "client_id" "c" ".bandcamp.com" "/" None;
              mk_cookie "client_id" "c" "bandcamp.com" "/" None;
              mk_cookie "identity" "i" ".bandcamp.com" "/" None] in
  let w1 := mk_auth_world (Some cs1) 100 (fun _ => false) [] false [] in
  let w2 := mk_auth_world (Some cs2) 100 (fun _ => false) [] false [] in
  (snd (bandcamp_login "u" "p" w1)).(a_events) <> [] /\
  fst (bandcamp_login "u" "p" w2) = inl CookieConflictError.
Proof. vm_compute. split; [discriminate|reflexivity]. Qed.

(** C9: starting with no browser open, [bandcamp_login] ends with none
    open on every path.  If launching the browser fails, the error
    propagates and no further driver call happens.  Once it is launched,
    the login steps log only calls other than [Quit], then [quit] runs on
    success and failure alike.  After it, a failure propagates with no
    further event (a wait that times out raises [TimeoutException]), and a
    success only writes the cookie cache. *)
Theorem C9_browser_released (username password : string) (w : auth_world) :
  w.(a_browser_open) = false ->
  (snd (bandcamp_login username password w)).(a_browser_open) = false /\
  (w.(a_fails) Launch = true ->
     browser_login username password w = (inl WebDriverException, log_event (BrowserCall Launch) w)) /\
  (w.(a_fails) Launch = false -> forall r w', browser_login username password w = (r, w') ->
     exists ops tail,
       Forall (fun o => o <> Quit) ops /\
       w'.(a_events) = w.(a_events) ++ BrowserCall Launch :: map BrowserCall ops ++
                       BrowserCall Quit :: tail /\
       w'.(a_browser_open) = false /\
       match r with
       | inl _ => tail = []
       | inr _ => exists cs, tail = [CacheWrite cs]
       end).
Proof.
  intros Ho. split; [|split].
  - unfold bandcamp_login, bind, cache_exists, read_cache, time_time.
    destruct (a_cache w) as [cs|] eqn:Hc; rewrite ?Hc;
      cbn -[jar_get parse_cookie_list browser_login]; [|apply browser_login_closed, Ho].
    destruct (jar_get "client_id" (parse_cookie_list (a_clock w) cs)) as [e|cid]; [exact Ho|].
    cbn -[jar_get parse_cookie_list browser_login].
    destruct (truthy_opt cid); [|apply browser_login_closed, Ho].
    destruct (jar_get "identity" (parse_cookie_list (a_clock w) cs)) as [e|ident]; [exact Ho|].
    cbn -[jar_get parse_cookie_list browser_login].
    destruct (truthy_opt ident); [exact Ho|apply browser_login_closed, Ho].
  - apply browser_login_launch_fails.
  - intros HL r w'. rewrite browser_login_run by exact HL. simpl.
    set (w0 := set_open true (log_event (BrowserCall Launch) w)).
    destruct (no_quit_login_steps username password w0) as [ops [Hops Hw1]].
    destruct (login_steps username password w0) as [[e|cs] w1]; simpl in Hw1; subst w1;
      intros H; injection H as <- <-; exists ops; simpl.
    + exists []. split; [exact Hops|]. split; [|split; reflexivity].
      rewrite <- !app_assoc. reflexivity.
    + exists [CacheWrite cs]. split; [exact Hops|]. split; [|split; [reflexivity|eexists; reflexivity]].
      rewrite <- !app_assoc. reflexivity.
Qed.

(** A wait for the login form that times out. *)
Lemma C9_browser_released_witness :
  let w := mk_auth_world None 100
             (fun op => match op with WaitFor _ => true | _ => false end) [] false [] in
  (snd (bandcamp_login "u" "p" w)).(a_browser_open) = false /\
  exists ops tail,
    Forall (fun o => o <> Quit) ops /\
    (snd (browser_login "u" "p" w)).(a_events) =
      w.(a_events) ++ BrowserCall Launch :: map BrowserCall ops ++ BrowserCall Quit :: tail /\
    (snd (browser_login "u" "p" w)).(a_browser_open) = false /\
    tail = [] /\
    fst (browser_login "u" "p" w) = inl TimeoutException.
Proof.
  intros w. destruct (C9_browser_released "u" "p" w eq_refl) as [H1 [_ H3]].
  split; [exact H1|].
  destruct (H3 eq_refl (fst (browser_login "u" "p" w)) (snd (browser_login "u" "p" w)))
    as [ops [tail [Hops [Hev [Hop Ht]]]]].
  - vm_compute. reflexivity.
  - exists ops, tail. split; [exact Hops|]. split; [exact Hev|]. split; [exact Hop|].
    assert (Hf : fst (browser_login "u" "p" w) = inl TimeoutException) by (vm_compute; reflexivity).
    rewrite Hf in Ht. split; [exact Ht|exact Hf].
Defined.

(** * Further properties of the code *)

(** ** The blob parser *)

Lemma feed_app (json_loads : string -> exn + json) blob (l1 l2 : list starttag) :
  feed json_loads blob (l1 ++ l2) =
  match feed json_loads blob l1 with inl e => inl e | inr b => feed json_loads b l2 end.
Proof.
  revert blob. induction l1 as [|t l1 IH]; intros blob; [reflexivity|].
  simpl. destruct (handle_starttag json_loads blob t); [reflexivity|apply IH].
Qed.

Lemma handle_starttag_pagedata (json_loads : string -> exn + json) blob t :
  is_pagedata t = true ->
  handle_starttag json_loads blob t =
  match attrs_get "data-blob" t.2 with
  | None => inl TypeError
  | Some s => match json_loads s with inl e => inl e | inr j => inr (Some j) end
  end.
Proof.
  unfold is_pagedata, handle_starttag. intros H.
  apply andb_true_iff in H as [H1 H2]. rewrite H1, H2. reflexivity.
Qed.

(** When the page parses, [data] is the blob of the last [pagedata] div,
    or an empty dict when that blob is falsy ([null], [0], [""], [[]],
    [{}]). *)
Theorem page_data_last_blob (json_loads : string -> exn + json)
    (pre post : list starttag) (t : starttag) (b : option json) (s : string) (j : json) :
  feed json_loads None pre = inr b ->
  is_pagedata t = true -> attrs_get "data-blob" t.2 = Some s -> json_loads s = inr j ->
  has_pagedata post = false ->
  page_data json_loads (pre ++ t :: post) = inr (if truthy j then j else JObj []).
Proof.
  intros Hpre Ht Hs Hj Hpost. unfold page_data. rewrite feed_app, Hpre. simpl.
  rewrite handle_starttag_pagedata by exact Ht. rewrite Hs, Hj.
  rewrite feed_no_pagedata by exact Hpost. reflexivity.
Qed.

Lemma page_data_last_blob_witness :
  let div b := ("div"%string, [("id"%string, Some "pagedata"%string);
                               ("data-blob"%string, Some b)]) in
  let loads s := if String.eqb s "first" then inr (JObj [("k"%string, JNum 1)]) else inr JNull in
  page_data loads [div "first"%string; div "second"%string] = inr (JObj []).
Proof.
  intros div loads.
  apply (page_data_last_blob loads [div "first"%string] [] (div "second"%string)
           (Some (JObj [("k"%string, JNum 1)])) "second" JNull); reflexivity.
Defined.

(** The first [pagedata] div decides the errors: without a [data-blob]
    attribute the parser raises [TypeError]; a blob that does not decode
    raises the decoder's error; later tags are not looked at. *)
Theorem page_data_first_error (json_loads : string -> exn + json)
    (pre post : list starttag) (t : starttag) :
  has_pagedata pre = false -> is_pagedata t = true ->
  (attrs_get "data-blob" t.2 = None -> page_data json_loads (pre ++ t :: post) = inl TypeError) /\
  (forall s e, attrs_get "data-blob" t.2 = Some s -> json_loads s = inl e ->
     page_data json_loads (pre ++ t :: post) = inl e).
Proof.
  intros Hpre Ht. unfold page_data. rewrite feed_app, feed_no_pagedata by exact Hpre.
  simpl. rewrite handle_starttag_pagedata by exact Ht. split.
  - intros H. rewrite H. reflexivity.
  - intros s e H He. rewrite H, He. reflexivity.
Qed.

Lemma page_data_first_error_witness :
  page_data (fun _ => inr JNull)
    [("div"%string, [("id"%string, Some "pagedata"%string); ("data-blob"%string, None)]);
     ("div"%string, [("id"%string, Some "pagedata"%string); ("data-blob"%string, Some "{}"%string)])]
  = inl TypeError.
Proof.
  apply (proj1 (page_data_first_error (fun _ => inr JNull) []
    [("div"%string, [("id"%string, Some "pagedata"%string); ("data-blob"%string, Some "{}"%string)])]
    ("div"%string, [("id"%string, Some "pagedata"%string); ("data-blob"%string, None)])
    eq_refl eq_refl)). reflexivity.
Defined.

(** [fan_id] and [last_token] fall back to their defaults only when a key
    is missing: a [fan_data] or [collection_data] that is present but not
    a dict (such as [null]) raises [AttributeError]. *)
Theorem user_info_non_dict (kvs : list (string * json)) (v : json) :
  (forall kvs', v <> JObj kvs') ->
  (obj_lookup "fan_data" kvs = Some v -> fan_id (JObj kvs) = inl AttributeError) /\
  (obj_lookup "collection_data" kvs = Some v -> last_token (JObj kvs) = inl AttributeError).
Proof.
  intros Hv. unfold fan_id, last_token, py_get. simpl.
  split; intros H; rewrite H; simpl;
    (destruct v; [reflexivity..|exfalso; eapply Hv; reflexivity]).
Qed.

Lemma user_info_non_dict_witness :
  fan_id (JObj [("fan_data"%string, JNull)]) = inl AttributeError.
Proof.
  apply (proj1 (user_info_non_dict [("fan_data"%string, JNull)] JNull ltac:(discriminate))).
  reflexivity.
Defined.

(** ** [int] and [str] on integers *)

Lemma digit_value_char (d : Z) : 0 <= d <= 9 -> digit_value (digit_char d) = Some d.
Proof.
  intros H. assert (d = 0 \/ d = 1 \/ d = 2 \/ d = 3 \/ d = 4 \/ d = 5 \/ d = 6 \/ d = 7 \/
                    d = 8 \/ d = 9) as Hd by lia.
  repeat destruct Hd as [->|Hd]; try reflexivity. subst. reflexivity.
Qed.

Lemma str_of_pos_aux_parse (f : nat) (n : Z) (acc : string) (a : Z) :
  0 < n < 2 ^ Z.of_nat f ->
  exists k, 0 <= k /\
    parse_digits a (str_of_pos_aux f n acc) = parse_digits (a * 10 ^ k + n) acc.
Proof.
  revert n acc a. induction f as [|f IH]; intros n acc a Hn.
  - simpl in Hn. lia.
  - simpl. destruct (n <? 10) eqn:E.
    + apply Z.ltb_lt in E. exists 1. split; [lia|]. simpl.
      rewrite digit_value_char by (pose proof (Z.mod_pos_bound n 10); lia).
      rewrite Z.mod_small by lia. f_equal; lia.
    + apply Z.ltb_ge in E.
      assert (Hb : 0 < n / 10 < 2 ^ Z.of_nat f).
      { rewrite Nat2Z.inj_succ, Z.pow_succ_r in Hn by lia. split.
        - apply Z.div_str_pos. lia.
        - apply Z.div_lt_upper_bound; lia. }
      destruct (IH (n / 10) (String (digit_char (n mod 10)) acc) a Hb) as [k [Hk Hp]].
      exists (k + 1). split; [lia|]. rewrite Hp. simpl.
      rewrite digit_value_char by (pose proof (Z.mod_pos_bound n 10); lia).
      f_equal. rewrite Z.pow_add_r by lia. pose proof (Z.div_mod n 10). lia.
Qed.

Lemma pos_size_bound (p : positive) : Zpos p < 2 ^ Z.of_nat (Pos.size_nat p).
Proof.
  induction p as [p IH|p IH|]; simpl Pos.size_nat; [| |reflexivity];
    rewrite Nat2Z.inj_succ, Z.pow_succ_r by lia;
    [rewrite Pos2Z.inj_xI | rewrite Pos2Z.inj_xO]; lia.
Qed.

Lemma str_of_pos_aux_nonempty (f : nat) (n : Z) (acc : string) :
  acc <> ""%string -> str_of_pos_aux f n acc <> ""%string.
Proof.
  revert n acc. induction f as [|f IH]; intros n acc H; [exact H|].
  simpl. destruct (n <? 10); [discriminate|]. apply IH. discriminate.
Qed.

Lemma py_int_not_minus (c : ascii) (r : string) :
  c <> "-"%char ->
  py_int (JStr (String c r)) =
  match parse_digits 0 (String c r) with Some z => inr z | None => inl ValueError end.
Proof.
  intros H. destruct c as [[] [] [] [] [] [] [] []]; try reflexivity.
  exfalso. apply H. reflexivity.
Qed.

Lemma str_of_pos_digits (p : positive) :
  exists c r, str_of_pos_aux (Pos.size_nat p) (Zpos p) "" = String c r /\
    parse_digits 0 (String c r) = Some (Zpos p).
Proof.
  destruct (str_of_pos_aux_parse (Pos.size_nat p) (Zpos p) "" 0) as [k [_ Hk]].
  { split; [lia|apply pos_size_bound]. }
  destruct (str_of_pos_aux (Pos.size_nat p) (Zpos p) "") as [|c r] eqn:E.
  - exfalso. revert E. apply str_of_pos_aux_nonempty. destruct (Pos.size_nat p); discriminate.
  - exists c, r. split; [reflexivity|]. rewrite Hk. reflexivity.
Qed.

(** [fan_id] applies [int()] to [fan_data.fan_id]: a number [n] or its
    decimal string [str(n)] both read back as [n]. *)
Theorem fan_id_int_str (kvs fd : list (string * json)) (n : Z) :
  obj_lookup "fan_data" kvs = Some (JObj fd) ->
  (obj_lookup "fan_id" fd = Some (JNum n) -> fan_id (JObj kvs) = inr n) /\
  (obj_lookup "fan_id" fd = Some (JStr (str_of_Z n)) -> fan_id (JObj kvs) = inr n).
Proof.
  intros Hf. unfold fan_id, py_get. simpl. rewrite Hf. simpl. split.
  - intros H. rewrite H. reflexivity.
  - intros H. rewrite H. destruct n as [|p|p]; [reflexivity| |].
    + destruct (str_of_pos_digits p) as [c [r [E Hp]]].
      change (str_of_Z (Zpos p)) with (str_of_pos_aux (Pos.size_nat p) (Zpos p) "").
      rewrite E. cbn [bind_r]. rewrite py_int_not_minus; [rewrite Hp; reflexivity|].
      intros ->. simpl in Hp. discriminate.
    + destruct (str_of_pos_digits p) as [c [r [E Hp]]].
      change (str_of_Z (Zneg p)) with (String "-" (str_of_pos_aux (Pos.size_nat p) (Zpos p) "")).
      rewrite E. cbn [bind_r]. cbv beta iota delta [py_int]. rewrite Hp. reflexivity.
Qed.

Lemma fan_id_int_str_witness :
  fan_id (JObj [("fan_data"%string, JObj [("fan_id"%string, JStr (str_of_Z 1234567))])])
  = inr 1234567.
Proof.
  apply (proj2 (fan_id_int_str [("fan_data"%string, JObj [("fan_id"%string, JStr (str_of_Z 1234567))])]
                  [("fan_id"%string, JStr (str_of_Z 1234567))] 1234567 eq_refl)).
  reflexivity.
Defined.

(** ** The download url of an item *)

(** The loop of [parse_album] keeps the [mp3-v0] url of the last entry of
    [digital_items]; the first entry without [downloads], [mp3-v0] or
    [url] raises that [KeyError] (or [TypeError] on a non-dict), whatever
    follows it. *)
Theorem parse_album_last_url (cur : option json) (pre post : list json) (d : json) :
  Forall (fun x => exists u, entry_url x = inr u) pre ->
  (forall u, entry_url d = inr u -> resolve_loop cur (pre ++ [d]) = inr (Some u)) /\
  (forall e, entry_url d = inl e -> resolve_loop cur (pre ++ d :: post) = inl e).
Proof.
  revert cur. induction pre as [|x pre IH]; intros cur Hpre.
  - split; intros r Hd; simpl; unfold entry_url in Hd; rewrite Hd; reflexivity.
  - inversion Hpre as [|? ? [u Hu] Hrest]; subst.
    unfold entry_url in Hu. simpl. rewrite Hu. apply IH, Hrest.
Qed.

Lemma parse_album_last_url_witness :
  let entry u := JObj [("downloads"%string, JObj [("mp3-v0"%string, JObj [("url"%string, JStr u)])])] in
  resolve_loop None [entry "https://x/a"%string; entry "https://x/b"%string]
  = inr (Some (JStr "https://x/b")).
Proof.
  intros entry.
  apply (proj1 (parse_album_last_url None [entry "https://x/a"%string] [] (entry "https://x/b"%string)
                  ltac:(repeat constructor; eexists; reflexivity))).
  reflexivity.
Defined.

(** ** Pagination failures *)

(** [get_collection] returns nothing it has collected when a later call
    fails: a page without [redownload_urls] raises [KeyError], and a
    request the transport cannot answer raises [ConnectionError]; every
    page up to the failing one was requested, with the cursors of the
    pages before it. *)
Theorem get_collection_failure (room : nat) (fan : Z) (tok : string)
    (seed : option (list item)) (ps : list page) :
  (length ps < room)%nat ->
  Forall (fun p => page_is_empty p = false /\ page_has_urls p = true) ps ->
  get_collection room fan tok seed ps =
    (inl ConnectionError, map (fun t => mk_post fan t 100) (cursors tok ps)) /\
  (forall e rest, page_has_urls e = false ->
     get_collection room fan tok seed (ps ++ e :: rest) =
     (inl (KeyError "redownload_urls"), map (fun t => mk_post fan t 100) (cursors tok ps))).
Proof.
  intros Hroom Hps. revert room Hroom tok seed.
  induction Hps as [|p ps [Hp Hpu] Hps IH]; intros room Hroom tok seed;
    (destruct room as [|room]; [simpl in Hroom; lia|]).
  - split; [reflexivity|]. intros e rest Hu. simpl.
    unfold page_has_urls in Hu. destruct (page_redownload_urls e); [discriminate|reflexivity].
  - simpl in Hroom. unfold page_is_empty in Hp. unfold page_has_urls in Hpu.
    split; [|intros e rest Hu]; simpl; unfold last_token_of, joined_items;
      destruct (page_redownload_urls p) as [u|]; try discriminate;
      destruct (page_items p) as [[|x xs]|]; try discriminate;
      cbn [map_download_urls map].
    + rewrite (proj1 (IH room ltac:(lia) _ _)). reflexivity.
    + rewrite (proj2 (IH room ltac:(lia) _ _) e rest Hu). reflexivity.
Qed.

Lemma get_collection_failure_witness :
  let a1 := mk_item "album" 1 11 "First" "Band" None "t1" in
  let p1 := mk_page (Some [a1]) (Some ∅) in
  get_collection 900 42 "" None [p1; mk_page (Some [a1]) None] =
    (inl (KeyError "redownload_urls"), [mk_post 42 "" 100; mk_post 42 "t1" 100]).
Proof.
  intros a1 p1.
  apply (proj2 (get_collection_failure 900 42 "" None [p1] ltac:(simpl; lia)
                  ltac:(repeat constructor))
               (mk_page (Some [a1]) None) []).
  reflexivity.
Defined.

(** ** The cookie store *)

Lemma parse_cookie_list_from_source (now : Z) (cs : list cookie) (j : jar) k v :
  parse_cookie_list_from now cs j !! k = Some v ->
  (exists pre c post, cs = pre ++ c :: post /\ cookie_key c = k /\ skipped now c = false /\
     v = (stored_value c.(c_value), c.(c_expiry)) /\
     Forall (fun c' => cookie_key c' = k -> skipped now c' = true) post) \/
  (j !! k = Some v /\ Forall (fun c' => cookie_key c' = k -> skipped now c' = true) cs).
Proof.
  revert j. induction cs as [|c cs IH]; intros j H; [right; split; [exact H|constructor]|].
  simpl in H. destruct (skipped now c) eqn:Hsk.
  - destruct (IH j H) as [[pre [c' [post [-> Hrest]]]]|[Hj Hf]].
    + left. exists (c :: pre), c', post. split; [reflexivity|exact Hrest].
    + right. split; [exact Hj|]. constructor; [intros _; exact Hsk|exact Hf].
  - destruct (IH _ H) as [[pre [c' [post [-> Hrest]]]]|[Hj Hf]].
    + left. exists (c :: pre), c', post. split; [reflexivity|exact Hrest].
    + unfold jar_set in Hj. destruct (decide (cookie_key c = k)) as [<-|Hne].
      * rewrite lookup_insert_eq in Hj. injection Hj as <-.
        left. exists [], c, cs. repeat split; assumption.
      * rewrite lookup_insert_ne in Hj by exact Hne. right. split; [exact Hj|].
        constructor; [intros E; contradiction|exact Hf].
Qed.

(** Every cookie in the built store comes from a record of the list: the
    last record with that (name, domain, path) key that is not skipped as
    expired, with its expiry and its (unescaped) value. *)
Theorem parse_cookie_list_last_record (now : Z) (cs : list cookie) k v :
  parse_cookie_list now cs !! k = Some v ->
  exists pre c post, cs = pre ++ c :: post /\ cookie_key c = k /\ skipped now c = false /\
    v = (stored_value c.(c_value), c.(c_expiry)) /\
    Forall (fun c' => cookie_key c' = k -> skipped now c' = true) post.
Proof.
  intros H. destruct (parse_cookie_list_from_source now cs ∅ k v H) as [Hl|[Hj _]];
    [exact Hl|]. rewrite lookup_empty in Hj. discriminate.
Qed.

Lemma parse_cookie_list_last_record_witness :
  exists pre c post,
    [mk_cookie "n" "1" "d" "/" None; mk_cookie "n" "2" "d" "/" (Some 50)] = pre ++ c :: post /\
    cookie_key c = ("n", "d", "/")%string /\ skipped 100 c = false /\
    ("1"%string, @None Z) = (stored_value c.(c_value), c.(c_expiry)) /\
    Forall (fun c' => cookie_key c' = ("n", "d", "/")%string -> skipped 100 c' = true) post.
Proof.
  apply (parse_cookie_list_last_record 100
           [mk_cookie "n" "1" "d" "/" None; mk_cookie "n" "2" "d" "/" (Some 50)]).
  vm_compute. reflexivity.
Defined.

Lemma jar_named_elem (n : string) (j : jar) k x :
  (k, x) ∈ List.filter (fun kv => String.eqb kv.1.1.1 n) (map_to_list j) <->
  j !! k = Some x /\ k.1.1 = n.
Proof.
  rewrite list_elem_of_In, filter_In, <- list_elem_of_In, elem_of_map_to_list, String.eqb_eq.
  reflexivity.
Qed.




(** Both versions of [jar.get] raise the same error or return values of
    the same truth value, so the test [if cookie_jar.get('client_id') and
    cookie_jar.get('identity')] of [bandcamp_login] reads a jar alike
    under either version, as [truthy_opt] does on the older one. *)
Theorem jar_get_versions (n : string) (j : jar) :
  match jar_get n j, jar_get_current n j with
  | inl e1, inl e2 => e1 = e2
  | inr o1, inr o2 => truthy_opt o1 = py_truthy_str o2 /\ truthy_opt o1 = py_truthy_str o1
  | _, _ => False
  end.
Proof.
  unfold jar_get, jar_get_current.
  destruct (List.filter _ _) as [|[k [v x]] [|b l]]; simpl; try (split; reflexivity).
  destruct (String.eqb v "") eqn:E; simpl; rewrite ?E; split; reflexivity.
Qed.

(** [jar.get(name)] raises [CookieConflictError] as soon as two cookies
    of that name are stored under different domains or paths, and reads
    [None] when no cookie has that name. *)
Theorem jar_get_conflict (j : jar) (n : string) :
  (forall k1 k2 x1 x2, j !! k1 = Some x1 -> j !! k2 = Some x2 -> k1 <> k2 ->
     k1.1.1 = n -> k2.1.1 = n -> jar_get n j = inl CookieConflictError) /\
  ((forall k x, j !! k = Some x -> k.1.1 <> n) -> jar_get n j = inr None).
Proof.
  unfold jar_get. split.
  - intros k1 k2 x1 x2 H1 H2 Hne Hn1 Hn2.
    assert (E1 : (k1, x1) ∈ List.filter (fun kv => String.eqb kv.1.1.1 n) (map_to_list j))
      by (apply jar_named_elem; split; assumption).
    assert (E2 : (k2, x2) ∈ List.filter (fun kv => String.eqb kv.1.1.1 n) (map_to_list j))
      by (apply jar_named_elem; split; assumption).
    destruct (List.filter _ _) as [|a [|b l]].
    + apply not_elem_of_nil in E1. contradiction.
    + apply list_elem_of_singleton in E1, E2. exfalso. apply Hne. congruence.
    + destruct a as [? [? ?]]. reflexivity.
  - intros Hnone. destruct (List.filter _ _) as [|[k x] l] eqn:E; [reflexivity|].
    exfalso. assert (Hz : (k, x) ∈ List.filter (fun kv => String.eqb kv.1.1.1 n) (map_to_list j))
      by (rewrite E; left). apply jar_named_elem in Hz as [Hk Hn]. exact (Hnone k x Hk Hn).
Qed.

Lemma jar_get_conflict_witness :
  jar_get "client_id" (<[("client_id", "bandcamp.com", "/")%string := ("b"%string, None)]>
                         {[ ("client_id", ".bandcamp.com", "/")%string := ("a"%string, None) ]})
  = inl CookieConflictError.
Proof.
  apply (proj1 (jar_get_conflict _ "client_id") ("client_id", ".bandcamp.com", "/")%string
           ("client_id", "bandcamp.com", "/")%string ("a"%string, None) ("b"%string, None));
    [vm_compute; reflexivity | vm_compute; reflexivity | discriminate | reflexivity | reflexivity].
Defined.

(** ** The item's directory *)

(** [os.path.join] drops everything before an absolute part: an item
    title starting with a slash is used as the directory itself, and a
    band name starting with a slash replaces the base directory.  With
    neither, the directory is base, band and title nested in that order. *)
Theorem download_dir_absolute (album : item) (base : string) :
  (starts_slash album.(item_title) = true ->
     norm (download_dir_name album base) = norm album.(item_title)) /\
  (starts_slash album.(item_title) = false -> starts_slash album.(band_name) = true ->
     norm (download_dir_name album base) =
     ""%string :: comps album.(band_name) ++ comps album.(item_title)) /\
  (starts_slash album.(item_title) = false -> starts_slash album.(band_name) = false ->
     norm (download_dir_name album base) =
     norm (default_base_dir base) ++ comps album.(band_name) ++ comps album.(item_title)).
Proof.
  unfold download_dir_name. split; [|split].
  - intros Ht. unfold join at 1. rewrite Ht. reflexivity.
  - intros Ht Hb. rewrite norm_join by exact Ht. unfold join. rewrite Hb.
    unfold norm. rewrite Hb. reflexivity.
  - intros Ht Hb. rewrite norm_join by exact Ht. rewrite norm_join by exact Hb.
    symmetry. apply app_assoc.
Qed.

Lemma download_dir_absolute_witness :
  norm (download_dir_name (mk_item "album" 7 7 "T" "/tmp" None "t") "Music")
  = [""; "tmp"; "T"]%string.
Proof.
  apply (proj1 (proj2 (download_dir_absolute (mk_item "album" 7 7 "T" "/tmp" None "t") "Music")));
    reflexivity.
Defined.



(** ** The lock marker *)

(** After [lock] succeeds the marker is an empty file, and [locked]
    reports the item as fetched without changing anything. *)
Theorem lock_then_locked (album : item) (base : string) (w w' : world) :
  lock album base w = (inr tt, w') ->
  w'.(w_files) !! marker_path album base = Some (Raw []) /\
  locked album base w' = (inr true, w').
Proof.
  unfold lock, bind.
  destruct (lock_path album base w) as [[e1|p] w1] eqn:E1; [discriminate|].
  pose proof (lock_path_result _ _ _ _ _ E1) as Hp.
  unfold write_file. destruct (is_dir w1 (norm p)); [discriminate|].
  destruct (is_dir w1 (parent (norm p))) eqn:Hpar; [|discriminate].
  intros H. injection H as <-. simpl. rewrite <- Hp, lookup_insert_eq.
  split; [reflexivity|].
  rewrite Hp, marker_path_eq, parent_snoc in Hpar.
  unfold locked, lock_path, bind. rewrite download_dir_existing by exact Hpar. simpl.
  unfold os_path_exists. fold (marker_path album base).
  unfold is_file. simpl. rewrite <- Hp, lookup_insert_eq, orb_true_r. reflexivity.
Qed.

Lemma lock_then_locked_witness :
  let album := mk_item "album" 7 7 "T" "B" None "t" in
  let w := mk_world ∅ {[ ["Music"]%string; ["Music"; "B"]%string; ["Music"; "B"; "T"]%string ]}
             (fun _ => None) [] [] in
  locked album "Music" (snd (lock album "Music" w)) = (inr true, snd (lock album "Music" w)).
Proof.
  intros album w. apply (proj2 (lock_then_locked album "Music" w _ (eq_refl _))).
Defined.

(** ** Downloading *)



(** ** Extraction writes only member targets *)

Lemma files_kept_weaken (P P' : path -> Prop) {A} (c : M world A) :
  (forall q, P q -> P' q) -> files_kept P c -> files_kept P' c.
Proof. intros HP Hc w q Hq. apply Hc. intros H. apply Hq, HP, H. Qed.

Lemma files_kept_bind (P : path -> Prop) {A B} (c : M world A) (k : A -> M world B) :
  files_kept P c -> (forall a, files_kept P (k a)) -> files_kept P (bind c k).
Proof.
  intros Hc Hk w q Hq. unfold bind. specialize (Hc w q Hq).
  destruct (c w) as [[e|a] w1]; simpl in *; [exact Hc|]. rewrite Hk by exact Hq. exact Hc.
Qed.

Lemma files_kept_ret (P : path -> Prop) {A} (a : A) : files_kept P (ret a).
Proof. intros w q _. reflexivity. Qed.

Lemma files_kept_exists (P : path -> Prop) (p : path) : files_kept P (os_path_exists p).
Proof. intros w q _. reflexivity. Qed.

Lemma files_kept_isdir (P : path -> Prop) (p : path) : files_kept P (os_path_isdir p).
Proof. intros w q _. reflexivity. Qed.

Lemma files_kept_makedirs (P : path -> Prop) (p : path) : files_kept P (os_makedirs p).
Proof.
  intros w q _. unfold os_makedirs.
  destruct (_ || _); [reflexivity|]. destruct (existsb _ _); reflexivity.
Qed.

Lemma files_kept_mkdir (P : path -> Prop) (p : path) : files_kept P (os_mkdir p).
Proof.
  intros w q _. unfold os_mkdir.
  destruct (_ || _); [reflexivity|]. destruct (is_dir w (parent p)); reflexivity.
Qed.

Lemma files_kept_write (P : path -> Prop) (p : path) (c : payload) :
  P p -> files_kept P (write_file p c).
Proof.
  intros Hp w q Hq. unfold write_file.
  destruct (is_dir w p); [reflexivity|]. destruct (is_dir w (parent p)); [|reflexivity].
  simpl. apply lookup_insert_ne. intros ->. exact (Hq Hp).
Qed.

Lemma files_kept_extract_member (dir : path) (m : string * payload) :
  files_kept (fun q => q = dir ++ sanitize m.1) (extract_member dir m).
Proof.
  unfold extract_member. apply files_kept_bind; [apply files_kept_exists|]. intros ex.
  apply files_kept_bind.
  - destruct (_ && _); [apply files_kept_makedirs|apply files_kept_ret].
  - intros _. destruct (ends_slash m.1).
    + apply files_kept_bind; [apply files_kept_isdir|]. intros b.
      destruct b; [apply files_kept_ret|apply files_kept_mkdir].
    + apply files_kept_write. reflexivity.
Qed.

Lemma sanitize_clean (name : string) :
  Forall (fun x => x <> ""%string /\ x <> "."%string /\ x <> ".."%string) (sanitize name).
Proof.
  apply Forall_forall. intros x Hx. unfold sanitize in Hx.
  apply list_elem_of_In, filter_In in Hx as [_ Hx].
  apply negb_true_iff, orb_false_iff in Hx as [Hx H3]. apply orb_false_iff in Hx as [H1 H2].
  apply String.eqb_neq in H1, H2, H3. auto.
Qed.

(** [extractall(dir)] changes files only at the targets of its members,
    also when it fails part-way; a target is [dir] followed by the
    member's name split at slashes, without empty, ["."] or [".."]
    components, so no member is written outside [dir]. *)
Theorem extractall_confined (dir : path) (ms : list (string * payload)) (w : world) :
  (forall q, (forall m, m ∈ ms -> q <> dir ++ sanitize m.1) ->
     (snd (extractall dir ms w)).(w_files) !! q = w.(w_files) !! q) /\
  (forall m, m ∈ ms ->
     Forall (fun x => x <> ""%string /\ x <> "."%string /\ x <> ".."%string) (sanitize m.1)).
Proof.
  split; [|intros m _; apply sanitize_clean].
  intros q Hq.
  assert (H : files_kept (fun q => exists m, m ∈ ms /\ q = dir ++ sanitize m.1) (extractall dir ms)).
  { clear w q Hq. induction ms as [|m rest IH]; simpl; [apply files_kept_ret|].
    apply files_kept_bind.
    - eapply files_kept_weaken; [|apply files_kept_extract_member].
      intros q ->. exists m. split; [left|reflexivity].
    - intros _. eapply files_kept_weaken; [|exact IH].
      intros q [m' [Hm' ->]]. exists m'. split; [right; exact Hm'|reflexivity]. }
  apply H. intros [m [Hm ->]]. exact (Hq m Hm eq_refl).
Qed.

Lemma extractall_confined_witness :
  let ms := [("../../etc/passwd"%string, Raw [Byte.x01])] in
  let w := mk_world ∅ {[ ["Music"]%string ]} (fun _ => None) [] [] in
  (snd (extractall ["Music"]%string ms w)).(w_files) !! ["etc"; "passwd"]%string = None.
Proof.
  intros ms w.
  apply (proj1 (extractall_confined ["Music"]%string ms w) ["etc"; "passwd"]%string).
  intros m Hm. apply list_elem_of_singleton in Hm as ->. discriminate.
Defined.

(** ** The main loop *)

Lemma run_albums_app (json_loads : string -> exn + json) (dir : string) (l1 l2 : list item) w :
  run_albums json_loads dir (l1 ++ l2) w =
  bind (run_albums json_loads dir l1) (fun _ => run_albums json_loads dir l2) w.
Proof.
  revert w. induction l1 as [|a l1 IH]; intros w; [reflexivity|].
  simpl. specialize (IH). unfold bind in *.
  destruct (process_album json_loads a dir w) as [[e|[]] w1]; [reflexivity|]. apply IH.
Qed.

(** The main loop has no handler: the first album whose resolve or fetch
    raises ends the run with that error, in the state the failure left,
    and no later album is requested or written. *)
Theorem run_albums_stops (json_loads : string -> exn + json) (dir : string)
    (pre post : list item) (a : item) (w w1 w2 : world) (e : exn) :
  run_albums json_loads dir pre w = (inr tt, w1) ->
  process_album json_loads a dir w1 = (inl e, w2) ->
  run_albums json_loads dir (pre ++ a :: post) w = (inl e, w2).
Proof.
  intros Hpre Ha. rewrite run_albums_app. unfold bind at 1. rewrite Hpre. simpl.
  unfold bind. rewrite Ha. reflexivity.
Qed.

Lemma run_albums_stops_witness :
  let a1 := mk_item "album" 1 1 "A" "B" None "t1" in
  let a2 := mk_item "album" 2 2 "C" "B" (Some "https://bandcamp.com/download?id=2"%string) "t2" in
  let w := mk_world ∅ ∅ (fun _ => None) [] [] in
  run_albums (fun _ => inl ValueError) "Music" ([] ++ a1 :: [a2]) w = (inl MissingSchema, w).
Proof.
  intros a1 a2 w.
  apply (run_albums_stops _ "Music" [] [a2] a1 w w w MissingSchema); reflexivity.
Defined.

(** ** A failed login *)

(** A login that raises, whether from the cache lookups or from the
    browser, leaves the [.cookies] cache as it was. *)
Theorem bandcamp_login_failure_keeps_cache (username password : string) (w w' : auth_world)
    (e : exn) :
  bandcamp_login username password w = (inl e, w') -> w'.(a_cache) = w.(a_cache).
Proof.
  assert (Hb : forall w1, browser_login username password w = (inl e, w1) -> w1.(a_cache) = w.(a_cache)).
  { intros w1. destruct (w.(a_fails) Launch) eqn:HL.
    - rewrite browser_login_launch_fails by exact HL. intros H. injection H as _ <-. reflexivity.
    - rewrite browser_login_run by exact HL. simpl.
      set (w0 := set_open true (log_event (BrowserCall Launch) w)).
      destruct (no_quit_login_steps username password w0) as [ops [_ Hw1]].
      destruct (login_steps username password w0) as [[e'|cs] w2]; simpl in Hw1; subst w2;
        [|discriminate]. intros H. injection H as _ <-. reflexivity. }
  unfold bandcamp_login, bind, cache_exists, read_cache, time_time.
  destruct (a_cache w) as [cs|] eqn:Hc; rewrite ?Hc;
    cbn -[jar_get parse_cookie_list browser_login]; [|rewrite ?Hc; apply Hb].
  destruct (jar_get "client_id" (parse_cookie_list (a_clock w) cs)) as [e1|cid];
    [intros H; injection H as _ <-; rewrite ?Hc; reflexivity|].
  cbn -[jar_get parse_cookie_list browser_login].
  destruct (truthy_opt cid); [|rewrite ?Hc; apply Hb].
  destruct (jar_get "identity" (parse_cookie_list (a_clock w) cs)) as [e2|ident];
    [intros H; injection H as _ <-; rewrite ?Hc; reflexivity|].
  cbn -[jar_get parse_cookie_list browser_login].
  destruct (truthy_opt ident); [discriminate|rewrite ?Hc; apply Hb].
Qed.

Lemma bandcamp_login_failure_keeps_cache_witness :
  let old := [mk_cookie "client_id" "" ".bandcamp.com" "/" None] in
  let w := mk_auth_world (Some old) 100
             (fun op => match op with WaitFor _ => true | _ => false end) [] false [] in
  (snd (bandcamp_login "u" "p" w)).(a_cache) = Some old.
Proof.
  intros old w.
  apply (bandcamp_login_failure_keeps_cache "u" "p" w _ TimeoutException).
  vm_compute. reflexivity.
Defined.
